(** * PiPharma page script (src/main.js): a shallow embedding and its properties

    The script is a set of independent DOM event handlers.  The embedding
    keeps the data the handlers read and write:

    - JavaScript strings are sequences of UTF-16 code units ([list N]);
    - numbers are IEEE-754 binary64 values ([spec_float]);
    - DOM nodes live in a store indexed by node identity, so that the list
      of items captured by the filter and the children of a table body are
      references to the same nodes;
    - built-ins of the engine that the script calls but does not define
      ([toLowerCase], [parseFloat], [parseInt], [JSON.parse]) are the methods
      of the class [Engine]; [ref_engine] instantiates them for examples. *)

From Stdlib Require Import ZArith NArith List Bool Lia String Ascii.
From Stdlib Require Import Permutation Sorted DecimalString DecimalZ.
From Stdlib Require Import Floats.SpecFloat.
From stdpp Require Import base list gmap.

Open Scope Z_scope.
Set Warnings "-register-all".

(** ** Strings *)

(** A JavaScript string: its UTF-16 code units. *)
Definition jsstring := list N.

(** Code units of an ASCII literal. *)
Definition lit (s : string) : jsstring :=
  List.map N_of_ascii (list_ascii_of_string s).

(** WhiteSpace and LineTerminator code points of ECMAScript; this is the set
    removed by [String.prototype.trim] and matched by the regexp class [\s]. *)
Definition isWhiteSpace (c : N) : bool :=
  ((9 <=? c) && (c <=? 13) || (c =? 32) || (c =? 160) || (c =? 5760)
   || (8192 <=? c) && (c <=? 8202) || (c =? 8232) || (c =? 8233)
   || (c =? 8239) || (c =? 8287) || (c =? 12288) || (c =? 65279))%N.

Fixpoint trimStart (s : jsstring) : jsstring :=
  match s with
  | c :: r => if isWhiteSpace c then trimStart r else s
  | [] => []
  end.

Definition trimEnd (s : jsstring) : jsstring := rev (trimStart (rev s)).

(** [String.prototype.trim] *)
Definition trim (s : jsstring) : jsstring := trimEnd (trimStart s).

(** [String.prototype.startsWith] (position 0) *)
Fixpoint startsWith (s q : jsstring) {struct q} : bool :=
  match q, s with
  | [], _ => true
  | c :: q', d :: s' => (c =? d)%N && startsWith s' q'
  | _ :: _, [] => false
  end.

(** [String.prototype.includes] (position 0) *)
Fixpoint includes (s q : jsstring) : bool :=
  startsWith s q || match s with [] => false | _ :: s' => includes s' q end.

(** [a === b] on strings *)
Definition str_eqb (a b : jsstring) : bool := bool_decide (a = b).

(** Comparison of strings by code units, as the relational operators do. *)
Fixpoint str_compare (a b : jsstring) : comparison :=
  match a, b with
  | [], [] => Eq
  | [], _ :: _ => Lt
  | _ :: _, [] => Gt
  | c :: a', d :: b' =>
      match (c ?= d)%N with
      | Eq => str_compare a' b'
      | o => o
      end
  end.

(** [a > b] on strings *)
Definition str_gtb (a b : jsstring) : bool :=
  match str_compare a b with Gt => true | _ => false end.

(** ** Numbers *)

(** A number is a binary64 value.  The comparisons of [SpecFloat] are the
    numeric ones on the canonical representations, which are what an engine
    computes with. *)
Definition number := spec_float.

Definition NaN : number := S754_nan.
Definition NegInfinity : number := S754_infinity true.

(** [Number.isFinite] *)
Definition isFinite (v : number) : bool :=
  match v with
  | S754_zero _ | S754_finite _ _ _ => true
  | S754_infinity _ | S754_nan => false
  end.

(** The result of [parseInt(s, 10)]: [NaN] or an integer. *)
Inductive jsindex :=
  | IdxNaN
  | IdxInt (z : Z).

(** [String(index)]; the decimal form is the one JavaScript prints for
    integers below 10^21 in magnitude. *)
Definition String_of_index (i : jsindex) : jsstring :=
  match i with
  | IdxNaN => lit "NaN"
  | IdxInt z => lit (NilEmpty.string_of_int (Z.to_int z))
  end.

(** ** JSON values *)

Inductive JSONValue :=
  | JNull
  | JBool (b : bool)
  | JNumber (n : number)
  | JString (s : jsstring)
  | JArray (l : list JSONValue)
  | JObject (l : list (jsstring * JSONValue)).

(** ToBoolean on a parsed JSON value *)
Definition truthy (v : JSONValue) : bool :=
  match v with
  | JNull => false
  | JBool b => b
  | JNumber n => match n with S754_zero _ | S754_nan => false | _ => true end
  | JString s => match s with [] => false | _ => true end
  | JArray _ | JObject _ => true
  end.

(** ** The engine's built-ins *)

Class Engine := {
  (** [String.prototype.toLowerCase] *)
  toLowerCase : jsstring -> jsstring;
  (** [parseFloat] *)
  parseFloat : jsstring -> number;
  (** [parseInt(_, 10)] *)
  parseInt10 : jsstring -> jsindex;
  (** [JSON.parse]; [None] when it throws a SyntaxError *)
  JSON_parse : jsstring -> option JSONValue;
  toLowerCase_empty : toLowerCase [] = [];
  parseFloat_empty : parseFloat [] = NaN
}.

(** ** Completions: a handler either returns or throws *)

Inductive completion (A : Type) :=
  | Normal (a : A)
  | Throw (msg : string).
Arguments Normal {A} a.
Arguments Throw {A} msg.

Definition cbind {A B} (c : completion A) (k : A -> completion B) : completion B :=
  match c with
  | Normal a => k a
  | Throw m => Throw m
  end.

Notation "x <- c ;; k" := (cbind c (fun x => k))
  (at level 100, c at next level, right associativity).

(** ** DOM nodes *)

(** A cell of a row: its text content and its [id] and [name] attributes,
    by which the cell collection of the row can be asked for it. *)
Record cell := TableCell {
  cell_textContent : jsstring;
  cell_id : option jsstring;
  cell_name : option jsstring
}.

(** What the handlers read and write of a node: whether it is a [<tr>], its
    text content, its cells, and its inline [style.display].  The store
    holds the children of the table body and nodes outside the table, whose
    text does not depend on the order of the rows; the body itself and the
    nodes around it are not in the store. *)
Record element := Element {
  isTr : bool;
  textContent : jsstring;
  cells : list cell;
  display : jsstring
}.

Definition set_display (d : jsstring) (e : element) : element :=
  {| isTr := isTr e; textContent := textContent e; cells := cells e; display := d |}.

Global Instance element_inhabited : Inhabited element :=
  populate (Element false [] [] []).

(** A sortable header cell [th[data-sort]]. *)
Record th := Th {
  data_sort : jsstring;
  data_type : option jsstring;
  cursor : jsstring
}.

(** The page: the node store, and one [table.sortable] with the child nodes
    of its first body (if it has one), its two sort attributes and its
    sortable headers. *)
Record page := Page {
  nodes : gmap nat element;
  tBody : option (list nat);
  data_sort_col : option jsstring;
  data_sort_dir : option jsstring;
  headers : list th
}.

Definition set_nodes (n : gmap nat element) (p : page) : page :=
  {| nodes := n; tBody := tBody p; data_sort_col := data_sort_col p;
     data_sort_dir := data_sort_dir p; headers := headers p |}.

(** ** Simple search / filter (main.js 90-101) *)

Section Filter.
Context `{Engine}.

(** [q === '' || text.includes(q) ? '' : 'none'] *)
Definition filter_display (q : jsstring) (it : element) : jsstring :=
  let text := toLowerCase (trim (textContent it)) in
  if str_eqb q [] || includes text q then [] else lit "none".

(** The [input] listener: [items] is the array captured when the listener
    was registered, [value] is [input.value] at the time of the event. *)
Definition filterHandler (items : list nat) (value : jsstring) (p : page) : page :=
  let q := toLowerCase (trim value) in
  set_nodes
    (fold_left (fun m it => alter (fun e => set_display (filter_display q e) e) it m)
               items (nodes p))
    p.
End Filter.

(** A row is visible when its inline display is not ['none']. *)
Definition visible (e : element) : Prop := display e <> lit "none".

(** ** Table sorting (main.js 108-144) *)

(** A sort key: what [parseCellValue] returns. *)
Inductive key :=
  | KNum (v : number)
  | KStr (s : jsstring).

(** [va === vb]; the two keys of one comparison are computed with the same
    [type], so they are both numbers or both strings. *)
Definition key_eqb (a b : key) : bool :=
  match a, b with
  | KNum x, KNum y => SFeqb x y
  | KStr x, KStr y => str_eqb x y
  | _, _ => false
  end.

(** [va > vb], on two numbers or two strings. *)
Definition key_gtb (a b : key) : bool :=
  match a, b with
  | KNum x, KNum y => SFltb y x
  | KStr x, KStr y => str_gtb x y
  | _, _ => false
  end.

(** The value of [a.cells[index]]: a cell, of which the handler reads the
    text content, or [undefined]. *)
Inductive cellref :=
  | Undefined
  | Cell (text : jsstring).

(** The characters matched by the regexp [[,$\s%]]. *)
Definition stripped (c : N) : bool :=
  ((c =? 44) || (c =? 36) || isWhiteSpace c || (c =? 37))%N.

(** [txt.replace(/[,$\s%]/g, '')] *)
Definition strip (txt : jsstring) : jsstring :=
  List.filter (fun c => negb (stripped c)) txt.

(** [getAttribute(name) === s] *)
Definition attr_is (a : option jsstring) (s : jsstring) : bool :=
  match a with
  | Some v => str_eqb v s
  | None => false
  end.

(** [HTMLCollection.namedItem(key)]: the first cell whose [id] or [name] is
    [key]. *)
Definition namedItem (cs : list cell) (key : jsstring) : cellref :=
  match List.find (fun c => attr_is (cell_id c) key || attr_is (cell_name c) key) cs with
  | Some c => Cell (cell_textContent c)
  | None => Undefined
  end.

(** [a.cells[index]] on the row's cell collection, an [HTMLCollection].  The
    property key is [String(index)].  When it is an array index (an integer
    from 0 to 2^32 - 2) the access is by position, and gives [undefined]
    past the last cell.  Any other key ("NaN", a negative integer, a larger
    integer) is looked up by name: it gives the cell with that [id] or
    [name], if the row has one. *)
Definition cells_item (e : element) (index : jsindex) : cellref :=
  match index with
  | IdxInt z =>
      if (0 <=? z) && (z <? 4294967295) then
        match cells e !! Z.to_nat z with
        | Some c => Cell (cell_textContent c)
        | None => Undefined
        end
      else namedItem (cells e) (String_of_index index)
  | IdxNaN => namedItem (cells e) (String_of_index index)
  end.

(** [c || { textContent: '' }] *)
Definition or_empty_cell (c : cellref) : cellref :=
  match c with
  | Undefined => Cell []
  | Cell t => Cell t
  end.

(** [parent.appendChild(r)]: a node that is already a child moves to the end. *)
Definition appendChild (children : list nat) (r : nat) : list nat :=
  List.filter (fun c => negb (Nat.eqb c r)) children ++ [r].

(** [Array.prototype.sort(cmp)].  ECMAScript makes the sort stable and, for a
    comparator that is a consistent order, leaves the order in which the
    comparisons are made to the engine; the result is then the one of any
    stable sort, here insertion from the right: [x] stays before [y] unless
    [cmp x y > 0].  An exception of the comparator propagates. *)
Fixpoint insertBy {A} (cmp : A -> A -> completion Z) (x : A) (l : list A)
  : completion (list A) :=
  match l with
  | [] => Normal [x]
  | y :: l' =>
      c <- cmp x y ;;
      if c <=? 0 then Normal (x :: y :: l')
      else (r <- insertBy cmp x l' ;; Normal (y :: r))
  end.

Fixpoint sortBy {A} (cmp : A -> A -> completion Z) (l : list A)
  : completion (list A) :=
  match l with
  | [] => Normal []
  | x :: l' => s <- sortBy cmp l' ;; insertBy cmp x s
  end.

Section Sort.
Context `{Engine}.

Definition parseCellValue (cell : cellref) (type : jsstring) : completion key :=
  match cell with
  | Undefined => Throw "TypeError: cell is undefined"
  | Cell textContent =>
      let txt := trim textContent in
      if str_eqb type (lit "number") then
        let n := strip txt in
        let v := parseFloat n in
        Normal (KNum (if isFinite v then v else NegInfinity))
      else Normal (KStr (toLowerCase txt))
  end.

(** The comparator passed to [rows.sort]. *)
Definition compareRows (m : gmap nat element) (index : jsindex) (type : jsstring)
  (dir : Z) (a b : nat) : completion Z :=
  va <- parseCellValue (or_empty_cell (cells_item (m !!! a) index)) type ;;
  vb <- parseCellValue (or_empty_cell (cells_item (m !!! b) index)) type ;;
  if key_eqb va vb then Normal 0
  else Normal (if key_gtb va vb then dir else - dir).

(** [tbody.rows]: the [<tr>] children of the body, in child order. *)
Definition tbody_rows (m : gmap nat element) (children : list nat) : list nat :=
  List.filter (fun c => isTr (m !!! c)) children.

(** The direction chosen by a click: [-1] when the table records this column
    as sorted ascending, [1] otherwise. *)
Definition sort_dir (index : jsindex) (p : page) : Z :=
  let currentAsc :=
    attr_is (data_sort_col p) (String_of_index index)
    && attr_is (data_sort_dir p) (lit "asc") in
  if currentAsc then -1 else 1.

(** The click listener [makeSortHandler(index, type)].  It is created only
    for a table that has a body (see [initSortable]); the branch without a
    body is there to make the function total. *)
Definition makeSortHandler (index : jsindex) (type : jsstring) (p : page)
  : completion page :=
  match tBody p with
  | None => Normal p
  | Some children =>
      let rows := tbody_rows (nodes p) children in
      let dir := sort_dir index p in
      sorted <- sortBy (compareRows (nodes p) index type dir) rows ;;
      Normal {| nodes := nodes p;
                tBody := Some (fold_left appendChild sorted children);
                data_sort_col := Some (String_of_index index);
                data_sort_dir := Some (if dir =? 1 then lit "asc" else lit "desc");
                headers := headers p |}
  end.



End Sort.

(** The order in which a sort leaves two keys: [a] may stay before [b]. *)
Definition key_le (dir : Z) (a b : key) : bool :=
  key_eqb a b || ((if key_gtb a b then dir else - dir) <=? 0).

(** ** Modal utilities (main.js 151-177, 254-259) *)

(** What the modal handlers read and write of an element: its class list
    and its [aria-hidden] attribute. *)
Record modalElement := ModalElement {
  classList : list jsstring;
  aria_hidden : option jsstring
}.

Global Instance modalElement_inhabited : Inhabited modalElement :=
  populate (ModalElement [] None).

(** [classList.contains] *)
Definition contains (cl : list jsstring) (t : jsstring) : bool :=
  existsb (str_eqb t) cl.

(** [classList.add] *)
Definition classList_add (t : jsstring) (cl : list jsstring) : list jsstring :=
  if contains cl t then cl else cl ++ [t].

(** [classList.remove] *)
Definition classList_remove (t : jsstring) (cl : list jsstring) : list jsstring :=
  List.filter (fun c => negb (str_eqb c t)) cl.

Definition add_hidden (m : modalElement) : modalElement :=
  {| classList := classList_add (lit "hidden") (classList m);
     aria_hidden := aria_hidden m |}.

(** Click on [[data-modal-open]]; [modal] is what
    [document.querySelector(sel)] finds. *)
Definition modalOpenClick (modal : option nat) (doc : gmap nat modalElement)
  : gmap nat modalElement :=
  match modal with
  | None => doc
  | Some id =>
      alter (fun m => {| classList := classList_remove (lit "hidden") (classList m);
                         aria_hidden := Some (lit "false") |}) id doc
  end.

(** Click on [[data-modal-close]]; [modal] is what
    [btn.closest('.modal') || document.querySelector(...)] finds. *)
Definition modalCloseClick (modal : option nat) (doc : gmap nat modalElement)
  : gmap nat modalElement :=
  match modal with
  | None => doc
  | Some id =>
      alter (fun m => {| classList := classList_add (lit "hidden") (classList m);
                         aria_hidden := Some (lit "true") |}) id doc
  end.

(** Click listener of the element [modal] (one of [$$('.modal')]);
    [target] is [e.target]. *)
Definition overlayClick (modal target : nat) (doc : gmap nat modalElement)
  : gmap nat modalElement :=
  if Nat.eqb target modal && contains (classList (doc !!! modal)) (lit "modal")
  then alter add_hidden modal doc
  else doc.

(** The selector [.modal:not(.hidden)] *)
Definition open_modal (m : modalElement) : bool :=
  contains (classList m) (lit "modal") && negb (contains (classList m) (lit "hidden")).

(** The document's [keydown] listener; [k] is [e.key]. *)
Definition keydownHandler (k : jsstring) (doc : gmap nat modalElement)
  : gmap nat modalElement :=
  if str_eqb k (lit "Escape")
  then (fun m => if open_modal m then add_hidden m else m) <$> doc
  else doc.

(** ** Copy helper of the public API (main.js 267) *)

(** The state in which a promise ends up. *)
Inductive promise (A : Type) :=
  | Fulfilled (a : A)
  | Rejected (reason : string)
  | Pending.
Arguments Fulfilled {A} a.
Arguments Rejected {A} reason.
Arguments Pending {A}.

(** The run of the body of an async function: it returns, throws, or waits
    for ever on a promise that never settles. *)
Inductive run (A : Type) :=
  | Returns (a : A)
  | Throws (reason : string)
  | Waits.
Arguments Returns {A} a.
Arguments Throws {A} reason.
Arguments Waits {A}.

Definition rbind {A B} (r : run A) (k : A -> run B) : run B :=
  match r with
  | Returns a => k a
  | Throws e => Throws e
  | Waits => Waits
  end.

(** [await p] *)
Definition await {A} (p : promise A) : run A :=
  match p with
  | Fulfilled a => Returns a
  | Rejected e => Throws e
  | Pending => Waits
  end.

(** [try { body } catch { handler }] *)
Definition try_catch {A} (body : run A) (handler : run A) : run A :=
  match body with
  | Throws _ => handler
  | r => r
  end.

(** The evaluation of an expression inside the body. *)
Definition eval {A} (c : completion A) : run A :=
  match c with
  | Normal a => Returns a
  | Throw e => Throws e
  end.

(** The promise returned by a call of an async function. *)
Definition async {A} (body : run A) : promise A :=
  match body with
  | Returns a => Fulfilled a
  | Throws e => Rejected e
  | Waits => Pending
  end.

(** [copyText]; [writeText text] is the evaluation of
    [navigator.clipboard.writeText(text)], which returns a promise or throws
    (when [navigator.clipboard] is undefined). *)
Definition copyText (writeText : jsstring -> completion (promise unit))
  (text : jsstring) : promise bool :=
  async (try_catch
           (rbind (rbind (eval (writeText text)) await) (fun _ => Returns true))
           (Returns false)).

(** ** Chart mounting (main.js 204-234) *)

(** An element of class [chart-canvas]: its class list, its configuration
    attribute, and whether it has a [getContext] method, as a [<canvas>]
    has. *)
Record canvas := Canvas {
  canvas_classList : list jsstring;
  data_chart_config : option jsstring;
  has_getContext : bool
}.

(** What [document.querySelector(sel)] does: throws on an invalid selector,
    finds nothing, or finds an element, of which the text content is read. *)
Inductive queryResult :=
  | QueryThrows
  | QueryNull
  | QueryElement (text : jsstring).

(** The configuration given to [new Chart]: a parsed one, or the default
    line chart built by [mountCharts]. *)
Inductive chartConfig :=
  | ParsedConfig (v : JSONValue)
  | DefaultLineChart.

(** What [mountCharts] leaves: the canvases, the configurations of the charts
    constructed (in the order of the canvases), the console output (for each
    canvas reached whether a warning was logged, and whether the
    missing-library note was printed), and the exception with which it ends,
    if any. *)
Record mounted := Mounted {
  canvases_after : list canvas;
  charts : list chartConfig;
  warned : list bool;
  noted : bool;
  thrown : option string
}.

(** The charting library, when it is loaded: what [new Chart(ctx, cfg)] does
    on the context of the canvas at a position, returning or throwing. *)
Class ChartLibrary := {
  newChart : nat -> chartConfig -> completion unit
}.

Section Charts.
Context `{Engine} `{ChartLibrary}.

(** The [try] block: the value of [cfg] after it, or the exception caught. *)
Definition readConfig (querySelector : jsstring -> queryResult)
  (cfgAttr : option jsstring) : completion (option JSONValue) :=
  match cfgAttr with
  | Some (c :: a) =>
      let cfgAttr := c :: a in
      if startsWith (trim cfgAttr) (lit "{") then
        match JSON_parse cfgAttr with
        | Some v => Normal (Some v)
        | None => Throw "SyntaxError"
        end
      else
        match querySelector cfgAttr with
        | QueryThrows => Throw "SyntaxError"
        | QueryNull => Normal None
        | QueryElement text =>
            match JSON_parse text with
            | Some v => Normal (Some v)
            | None => Throw "SyntaxError"
            end
        end
  | _ => Normal None
  end.

(** The value of [cfg] when [new Chart] is reached, after the fallback to the
    default line chart, and whether a warning was logged. *)
Definition configOf (querySelector : jsstring -> queryResult) (c : canvas)
  : chartConfig * bool :=
  let (cfg, warn) :=
    match readConfig querySelector (data_chart_config c) with
    | Normal cfg => (cfg, false)
    | Throw _ => (None, true)
    end in
  match cfg with
  | Some v => if truthy v then (ParsedConfig v, warn) else (DefaultLineChart, warn)
  | None => (DefaultLineChart, warn)
  end.

(** One iteration of [canvases.forEach] when [window.Chart] is defined, on
    the canvas at position [i]: whether a warning was logged, and the chart
    constructed, or the exception of [canvas.getContext('2d')] or of the
    constructor, which are not inside the [try]. *)
Definition mountOne (querySelector : jsstring -> queryResult) (i : nat) (c : canvas)
  : bool * completion chartConfig :=
  let (cfg, warn) := configOf querySelector c in
  (warn,
   if has_getContext c then (_ <- newChart i cfg ;; Normal cfg)
   else Throw "TypeError: canvas.getContext is not a function").

(** [canvases.forEach], from position [i] on: it stops at the first
    exception. *)
Fixpoint mountEach (querySelector : jsstring -> queryResult) (i : nat)
  (canvases : list canvas) : list chartConfig * list bool * option string :=
  match canvases with
  | [] => ([], [], None)
  | c :: rest =>
      match mountOne querySelector i c with
      | (warn, Normal cfg) =>
          let '(cs, ws, t) := mountEach querySelector (S i) rest in
          (cfg :: cs, warn :: ws, t)
      | (warn, Throw msg) => ([], [warn], Some msg)
      end
  end.

(** [mountCharts]; [hasChart] tells whether [window.Chart] is defined. *)
Definition mountCharts (hasChart : bool) (querySelector : jsstring -> queryResult)
  (canvases : list canvas) : mounted :=
  match canvases with
  | [] => Mounted canvases [] [] false None
  | _ =>
      if negb hasChart then
        Mounted
          (List.map (fun c => {| canvas_classList :=
                                   classList_add (lit "skeleton") (canvas_classList c);
                                 data_chart_config := data_chart_config c;
                                 has_getContext := has_getContext c |}) canvases)
          [] [] true None
      else
        let '(cs, ws, t) := mountEach querySelector 0 canvases in
        Mounted canvases cs ws false t
  end.

(** The configuration text of a canvas, inline or referenced by a selector,
    is not JSON. *)
Definition parse_fails (querySelector : jsstring -> queryResult) (c : canvas) : Prop :=
  match data_chart_config c with
  | Some (ch :: a) =>
      if startsWith (trim (ch :: a)) (lit "{") then JSON_parse (ch :: a) = None
      else match querySelector (ch :: a) with
           | QueryElement text => JSON_parse text = None
           | _ => False
           end
  | _ => False
  end.
End Charts.

(** ** Theme toggle (main.js 39-69) *)

(** [localStorage] as the script uses it: the item stored under [THEME_KEY],
    and whether reading and writing throw (storage disabled or full). *)
Record storage := Storage {
  theme_item : option jsstring;
  read_throws : bool;
  write_throws : bool
}.

Definition getStoredTheme (s : storage) : option jsstring :=
  if read_throws s then None else theme_item s.

Definition storeTheme (value : jsstring) (s : storage) : storage :=
  if write_throws s then s
  else {| theme_item := Some value;
          read_throws := read_throws s;
          write_throws := write_throws s |}.

(** [matchMedia] is [None] when [window.matchMedia] is undefined, and tells
    otherwise whether the query [(prefers-color-scheme: dark)] matches. *)
Definition systemPrefersDark (matchMedia : option bool) : bool :=
  match matchMedia with
  | Some matches => matches
  | None => false
  end.

(** [applyTheme], on the class list of the [<html>] element. *)
Definition applyTheme (theme : jsstring) (html : list jsstring) : list jsstring :=
  if str_eqb theme (lit "dark") then classList_add (lit "dark") html
  else classList_remove (lit "dark") html.

Definition initTheme (s : storage) (matchMedia : option bool) (html : list jsstring)
  : list jsstring :=
  match getStoredTheme s with
  | Some (c :: t) => applyTheme (c :: t) html
  | _ => applyTheme (if systemPrefersDark matchMedia then lit "dark" else lit "light")
                    html
  end.

(** [classList.toggle]: the class list and the value returned. *)
Definition classList_toggle (t : jsstring) (cl : list jsstring)
  : list jsstring * bool :=
  if contains cl t then (classList_remove t cl, false) else (cl ++ [t], true).

(** What the toggle button touches: the class list of [<html>], the storage,
    and the themes of the [ph-theme-changed] events dispatched so far. *)
Record themePage := ThemePage {
  html_classList : list jsstring;
  localStorage : storage;
  dispatched : list jsstring
}.

(** Click on [.dark-mode-toggle]. *)
Definition themeToggleClick (p : themePage) : themePage :=
  let (cl, isDark) := classList_toggle (lit "dark") (html_classList p) in
  let theme := if isDark then lit "dark" else lit "light" in
  {| html_classList := cl;
     localStorage := storeTheme theme (localStorage p);
     dispatched := dispatched p ++ [theme] |}.

(** ** Mobile menu toggle (main.js 74-83) *)

(** What a selector query finds when the element itself is needed. *)
Inductive found :=
  | FoundThrows
  | FoundNull
  | Found (id : nat).

(** The [aria-expanded] attribute of the button and the class lists of the
    elements of the document. *)
Record menuPage := MenuPage {
  aria_expanded : option jsstring;
  classes : gmap nat (list jsstring)
}.

(** The menu of a button: what its [data-target] selector finds, or its next
    sibling element when it has no (or an empty) [data-target]. *)
Definition menuTarget (data_target : option jsstring)
  (querySelector : jsstring -> found) (nextElementSibling : option nat)
  : completion (option nat) :=
  match data_target with
  | Some (c :: s) =>
      match querySelector (c :: s) with
      | FoundThrows => Throw "SyntaxError"
      | FoundNull => Normal None
      | Found id => Normal (Some id)
      end
  | _ => Normal nextElementSibling
  end.

(** Click on [.mobile-menu-button]. *)
Definition menuButtonClick (data_target : option jsstring)
  (querySelector : jsstring -> found) (nextElementSibling : option nat)
  (p : menuPage) : completion menuPage :=
  menu <- menuTarget data_target querySelector nextElementSibling ;;
  match menu with
  | None => Normal p
  | Some id =>
      let expanded := attr_is (aria_expanded p) (lit "true") in
      Normal {| aria_expanded := Some (if negb expanded then lit "true" else lit "false");
                classes := alter (fun cl => fst (classList_toggle (lit "hidden") cl))
                                 id (classes p) |}
  end.

(** ** Copy button (main.js 184-196) *)

Record copyButton := CopyButton {
  data_copy : option jsstring;
  data_copy_target : option jsstring;
  button_classList : list jsstring
}.

(** The text to copy: [None] is [undefined]. *)
Definition copyButtonText (btn : copyButton) (querySelector : jsstring -> queryResult)
  : completion (option jsstring) :=
  match data_copy btn with
  | Some (c :: s) => Normal (Some (c :: s))
  | _ =>
      match data_copy_target btn with
      | Some (c :: s) =>
          match querySelector (c :: s) with
          | QueryThrows => Throw "SyntaxError"
          | QueryNull => Normal None
          | QueryElement text => Normal (Some text)
          end
      | _ => Normal (Some [])
      end
  end.

(** What a click has done when the listener returns: the class list of the
    button, the text given to [writeText] if it was called, the delay of the
    timer set, and whether a warning was logged. *)
Record copyEffects := CopyEffects {
  button_after : list jsstring;
  written : option jsstring;
  timer : option Z;
  copy_warned : bool
}.

(** The click listener of [.copy-btn], an async function. *)
Definition copyButtonClick (btn : copyButton) (querySelector : jsstring -> queryResult)
  (writeText : jsstring -> completion (promise unit)) : promise copyEffects :=
  async
    (rbind (eval (copyButtonText btn querySelector)) (fun text =>
       match text with
       | Some (c :: s) =>
           try_catch
             (rbind (rbind (eval (writeText (c :: s))) await) (fun _ =>
                Returns {| button_after :=
                             classList_add (lit "copied") (button_classList btn);
                           written := Some (c :: s);
                           timer := Some 1500;
                           copy_warned := false |}))
             (Returns {| button_after := button_classList btn;
                         written := Some (c :: s);
                         timer := None;
                         copy_warned := true |})
       | _ =>
           Returns {| button_after := button_classList btn;
                      written := None;
                      timer := None;
                      copy_warned := false |}
       end)).

(** The callback of the timer. *)
Definition copiedExpired (cl : list jsstring) : list jsstring :=
  classList_remove (lit "copied") cl.

(** ** Sticky header (main.js 240-248) *)

(** The threshold, 24. *)
Definition threshold : number := S754_finite false 6755399441055744 (-48).

(** The scroll listener, on the class list of [.site-header]; [scrollY] is
    [window.scrollY]. *)
Definition scrollHandler (scrollY : number) (header : list jsstring) : list jsstring :=
  if SFltb threshold scrollY then classList_add (lit "scrolled") header
  else classList_remove (lit "scrolled") header.

(** ** A reference engine

    The built-ins on the inputs used in the examples below.  [ref_parseFloat]
    reads the longest prefix that is a StrDecimalLiteral and rounds its value
    to the nearest binary64; [ref_JSON_parse] follows the JSON grammar;
    [ref_toLowerCase] maps the letters A-Z only, which is what
    [toLowerCase] does on a string of ASCII code units. *)

Definition ref_toLowerCase (s : jsstring) : jsstring :=
  List.map (fun c => if ((65 <=? c) && (c <=? 90))%N then (c + 32)%N else c) s.

Definition digit (c : N) : option Z :=
  if ((48 <=? c) && (c <=? 57))%N then Some (Z.of_N c - 48) else None.

(** A run of decimal digits: the number read after [acc], how many digits
    were read after [n], and the rest of the string. *)
Fixpoint digits (s : jsstring) (acc n : Z) : Z * Z * jsstring :=
  match s with
  | c :: r =>
      match digit c with
      | Some d => digits r (10 * acc + d) (n + 1)
      | None => (acc, n, s)
      end
  | [] => (acc, n, [])
  end.

(** An optional sign: whether it is a minus, and the rest. *)
Definition sign (s : jsstring) : bool * jsstring :=
  match s with
  | 45%N :: r => (true, r)
  | 43%N :: r => (false, r)
  | _ => (false, s)
  end.

(** The value of an ExponentPart at the head of [s], 0 if there is none. *)
Definition exponent (s : jsstring) : Z :=
  match s with
  | c :: r =>
      if ((c =? 101) || (c =? 69))%N then
        let (neg, r') := sign r in
        let '(v, n, _) := digits r' 0 0 in
        if n =? 0 then 0 else if neg then - v else v
      else 0
  | [] => 0
  end.

(** The binary64 nearest to [m * 10^e] (ties to even), negated if [neg]. *)
Definition decimal (neg : bool) (m e : Z) : number :=
  match m with
  | Zpos p =>
      SFdiv 53 1024
        (S754_finite neg (p * Z.to_pos (10 ^ Z.max e 0)) 0)
        (S754_finite false (Z.to_pos (10 ^ Z.max (- e) 0)) 0)
  | _ => S754_zero neg
  end.

Definition ref_parseFloat (s : jsstring) : number :=
  let (neg, s0) := sign (trimStart s) in
  if startsWith s0 (lit "Infinity") then S754_infinity neg
  else
    let '(ip, ni, s1) := digits s0 0 0 in
    let '(m, nf, s2) :=
      match s1 with
      | 46%N :: r => digits r ip 0
      | _ => (ip, 0, s1)
      end in
    if ni + nf =? 0 then NaN
    else decimal neg m (exponent s2 - nf).

Definition ref_parseInt10 (s : jsstring) : jsindex :=
  let (neg, s0) := sign (trimStart s) in
  let '(v, n, _) := digits s0 0 0 in
  if n =? 0 then IdxNaN else IdxInt (if neg then - v else v).

(** JSON white space *)
Fixpoint json_ws (s : jsstring) : jsstring :=
  match s with
  | c :: r => if ((c =? 32) || (c =? 9) || (c =? 10) || (c =? 13))%N then json_ws r else s
  | [] => []
  end.

Definition hex (c : N) : option N :=
  if ((48 <=? c) && (c <=? 57))%N then Some (c - 48)%N
  else if ((97 <=? c) && (c <=? 102))%N then Some (c - 87)%N
  else if ((65 <=? c) && (c <=? 70))%N then Some (c - 55)%N
  else None.

(** The characters of a JSON string after its opening quote. *)
Fixpoint json_string (s : jsstring) (acc : jsstring) : option (jsstring * jsstring) :=
  match s with
  | [] => None
  | 34%N :: r => Some (rev acc, r)
  | 92%N :: 117%N :: a :: b :: c :: d :: r =>
      match hex a, hex b, hex c, hex d with
      | Some a, Some b, Some c, Some d =>
          json_string r ((((a * 16 + b) * 16 + c) * 16 + d)%N :: acc)
      | _, _, _, _ => None
      end
  | 92%N :: e :: r =>
      match e with
      | 34%N | 92%N | 47%N => json_string r (e :: acc)
      | 98%N => json_string r (8%N :: acc)
      | 102%N => json_string r (12%N :: acc)
      | 110%N => json_string r (10%N :: acc)
      | 114%N => json_string r (13%N :: acc)
      | 116%N => json_string r (9%N :: acc)
      | _ => None
      end
  | c :: r => if (c <? 32)%N then None else json_string r (c :: acc)
  end.

(** A JSON number at the head of [s]. *)
Definition json_number (s : jsstring) : option (JSONValue * jsstring) :=
  let (neg, s0) := match s with 45%N :: r => (true, r) | _ => (false, s) end in
  let '(ip, ni, s1) := digits s0 0 0 in
  let leading_zero := match s0 with 48%N :: _ => true | _ => false end in
  if (ni =? 0) || (leading_zero && (1 <? ni)) then None
  else
    let frac :=
      match s1 with
      | 46%N :: r => let '(m, nf, s2) := digits r ip 0 in
                     if nf =? 0 then None else Some (m, nf, s2)
      | _ => Some (ip, 0, s1)
      end in
    match frac with
    | None => None
    | Some (m, nf, s2) =>
        match s2 with
        | c :: r =>
            if ((c =? 101) || (c =? 69))%N then
              let (eneg, r') := sign r in
              let '(v, n, s3) := digits r' 0 0 in
              if n =? 0 then None
              else Some (JNumber (decimal neg m ((if eneg then - v else v) - nf)), s3)
            else Some (JNumber (decimal neg m (- nf)), s2)
        | [] => Some (JNumber (decimal neg m (- nf)), [])
        end
    end.

Fixpoint json_value (fuel : nat) (s : jsstring) {struct fuel}
  : option (JSONValue * jsstring) :=
  match fuel with
  | O => None
  | S fuel =>
      match json_ws s with
      | 110%N :: 117%N :: 108%N :: 108%N :: r => Some (JNull, r)
      | 116%N :: 114%N :: 117%N :: 101%N :: r => Some (JBool true, r)
      | 102%N :: 97%N :: 108%N :: 115%N :: 101%N :: r => Some (JBool false, r)
      | 34%N :: r =>
          match json_string r [] with
          | Some (str, r') => Some (JString str, r')
          | None => None
          end
      | 91%N :: r =>
          match json_ws r with
          | 93%N :: r' => Some (JArray [], r')
          | _ =>
              match json_elements fuel r with
              | Some (vs, r') => Some (JArray vs, r')
              | None => None
              end
          end
      | 123%N :: r =>
          match json_ws r with
          | 125%N :: r' => Some (JObject [], r')
          | _ =>
              match json_members fuel r with
              | Some (ms, r') => Some (JObject ms, r')
              | None => None
              end
          end
      | s' => json_number s'
      end
  end
with json_elements (fuel : nat) (s : jsstring) {struct fuel}
  : option (list JSONValue * jsstring) :=
  match fuel with
  | O => None
  | S fuel =>
      match json_value fuel s with
      | Some (v, r) =>
          match json_ws r with
          | 44%N :: r' =>
              match json_elements fuel r' with
              | Some (vs, r'') => Some (v :: vs, r'')
              | None => None
              end
          | 93%N :: r' => Some ([v], r')
          | _ => None
          end
      | None => None
      end
  end
with json_members (fuel : nat) (s : jsstring) {struct fuel}
  : option (list (jsstring * JSONValue) * jsstring) :=
  match fuel with
  | O => None
  | S fuel =>
      match json_ws s with
      | 34%N :: r =>
          match json_string r [] with
          | Some (k, r1) =>
              match json_ws r1 with
              | 58%N :: r2 =>
                  match json_value fuel r2 with
                  | Some (v, r3) =>
                      match json_ws r3 with
                      | 44%N :: r4 =>
                          match json_members fuel r4 with
                          | Some (ms, r5) => Some ((k, v) :: ms, r5)
                          | None => None
                          end
                      | 125%N :: r4 => Some ([(k, v)], r4)
                      | _ => None
                      end
                  | None => None
                  end
              | _ => None
              end
          | None => None
          end
      | _ => None
      end
  end.

Definition ref_JSON_parse (s : jsstring) : option JSONValue :=
  match json_value (2 * length s + 2) s with
  | Some (v, r) => match json_ws r with [] => Some v | _ => None end
  | None => None
  end.

#[export] Instance ref_engine : Engine := {|
  toLowerCase := ref_toLowerCase;
  parseFloat := ref_parseFloat;
  parseInt10 := ref_parseInt10;
  JSON_parse := ref_JSON_parse;
  toLowerCase_empty := eq_refl;
  parseFloat_empty := eq_refl
|}.

(** A charting library whose constructor accepts every canvas and every
    configuration, and one that refuses every one. *)
#[export] Instance ref_charts : ChartLibrary := {|
  newChart := fun _ _ => Normal tt
|}.

Definition failing_charts : ChartLibrary := {|
  newChart := fun _ _ => Throw "Error: Canvas is already in use"
|}.

(** ** Derived notions used to state the properties *)

Definition visibleb (e : element) : bool := negb (str_eqb (display e) (lit "none")).

(** The captured items that are visible on the page. *)
Definition visible_rows (items : list nat) (p : page) : list nat :=
  List.filter (fun it => visibleb (nodes p !!! it)) items.

(** [q] occurs in [text] as a contiguous run of code units. *)
Definition substring (q text : jsstring) : Prop :=
  exists pre post, text = pre ++ q ++ post.

(** Stable insertion sort with a boolean order: what [sortBy] computes when
    the comparator does not throw. *)
Fixpoint insert {A} (le : A -> A -> bool) (x : A) (l : list A) : list A :=
  match l with
  | [] => [x]
  | y :: l' => if le x y then x :: y :: l' else y :: insert le x l'
  end.

Fixpoint isort {A} (le : A -> A -> bool) (l : list A) : list A :=
  match l with
  | [] => []
  | x :: l' => insert le x (isort le l')
  end.

Section RowKeys.
Context `{Engine}.

(** The text of the cell that the comparator reads for a row: the cell at
    [index], or the empty text when the row has no such cell. *)
Definition cell_text (e : element) (index : jsindex) : jsstring :=
  match cells_item e index with
  | Cell t => t
  | Undefined => []
  end.

(** The key of a numeric cell. *)
Definition number_key (text : jsstring) : number :=
  let v := parseFloat (strip (trim text)) in
  if isFinite v then v else NegInfinity.

(** The key of a cell text under a column type. *)
Definition text_key (type : jsstring) (text : jsstring) : key :=
  if str_eqb type (lit "number") then KNum (number_key text)
  else KStr (toLowerCase (trim text)).

(** The sort key of row [a] for a column. *)
Definition row_key (m : gmap nat element) (index : jsindex) (type : jsstring)
  (a : nat) : key :=
  text_key type (cell_text (m !!! a) index).

(** The order of rows under a direction. *)
Definition row_le (m : gmap nat element) (index : jsindex) (type : jsstring)
  (dir : Z) (a b : nat) : bool :=
  key_le dir (row_key m index type a) (row_key m index type b).

(** The rows of a body in the order a sort in direction [dir] gives them. *)
Definition sorted_rows (m : gmap nat element) (index : jsindex) (type : jsstring)
  (dir : Z) (children : list nat) : list nat :=
  isort (row_le m index type dir) (tbody_rows m children).

(** The children of a body that are not rows. *)
Definition other_children (m : gmap nat element) (children : list nat) : list nat :=
  List.filter (fun c => negb (isTr (m !!! c))) children.

(** A numeric cell that cannot be parsed. *)
Definition unparseable (text : jsstring) : Prop :=
  parseFloat (strip (trim text)) = NaN.
End RowKeys.

(** Two elements that an order does not separate. *)
Definition tied {A} (le : A -> A -> bool) (a b : A) : bool := le a b && le b a.

(** A list in which every element is in order with all the later ones. *)
Definition sorted {A} (le : A -> A -> bool) (l : list A) : Prop :=
  StronglySorted (fun a b => le a b = true) l.

(** *** The numeric key in the words of the specification

    The specification has the key of a numeric cell obtained by stripping
    thousands separators, currency symbols, whitespace and percent signs and
    parsing the result, a value that cannot be parsed giving -Infinity.
    [spec_strip] removes the comma, every currency symbol of Unicode (general
    category Sc, in the Basic Multilingual Plane), the white space and the
    percent sign; [spec_number_key] is the value parsed, or -Infinity when
    there is none.  They are compared with [strip] and [number_key] below. *)

Definition is_currency_symbol (c : N) : bool :=
  ((c =? 36) || (162 <=? c) && (c <=? 165) || (c =? 1423) || (c =? 1547)
   || (2046 <=? c) && (c <=? 2047) || (2546 <=? c) && (c <=? 2547)
   || (c =? 2555) || (c =? 2801) || (c =? 3065) || (c =? 3647) || (c =? 6107)
   || (8352 <=? c) && (c <=? 8384) || (c =? 43064) || (c =? 65020)
   || (c =? 65129) || (c =? 65284) || (65504 <=? c) && (c <=? 65505)
   || (65509 <=? c) && (c <=? 65510))%N.

Definition spec_strip (txt : jsstring) : jsstring :=
  List.filter
    (fun c => negb ((c =? 44)%N || is_currency_symbol c || isWhiteSpace c || (c =? 37)%N))
    txt.

Definition spec_number_key `{Engine} (text : jsstring) : number :=
  match parseFloat (spec_strip (trim text)) with
  | S754_nan => NegInfinity
  | v => v
  end.

(** *** Runs of clicks *)

(** The listeners of a list of header clicks run one after the other. *)
Definition clicks_run `{Engine} (clicks : list (jsindex * jsstring)) (p : page)
  : completion page :=
  fold_left (fun c click => p' <- c ;; makeSortHandler (fst click) (snd click) p')
            clicks (Normal p).

(** The child order of the body after a run of clicks. *)
Definition order_after `{Engine} (clicks : list (jsindex * jsstring)) (p : page)
  : option (list nat) :=
  match clicks_run clicks p with
  | Normal p' => tBody p'
  | Throw _ => None
  end.

(** The direction recorded on the table after a run of clicks. *)
Definition direction_after `{Engine} (clicks : list (jsindex * jsstring)) (p : page)
  : option jsstring :=
  match clicks_run clicks p with
  | Normal p' => data_sort_dir p'
  | Throw _ => None
  end.

(** ** Example pages *)

Definition demo_row (cs : list string) : element :=
  {| isTr := true;
     textContent := concat (List.map (fun c => lit c ++ lit " ") cs);
     cells := List.map (fun c => TableCell (lit c) None None) cs;
     display := [] |}.

Definition demo_nodes : gmap nat element :=
  list_to_map
    [(0, demo_row ["Pharma Co"; "30"]%string);
     (1, demo_row ["Other"; "5"]%string);
     (2, demo_row ["Alpha"; "100"]%string);
     (3, {| isTr := false; textContent := lit " "; cells := []; display := [] |});
     (4, demo_row ["Beta"]%string);
     (5, demo_row ["Gamma"; "n/a"]%string)]%nat.

(** A table whose body holds a white-space text node and five rows; the
    second column is numeric. *)
Definition demo_page : page :=
  {| nodes := demo_nodes;
     tBody := Some [3; 0; 1; 2; 4; 5]%nat;
     data_sort_col := None;
     data_sort_dir := None;
     headers := [Th (lit "0") None []; Th (lit "1") (Some (lit "number")) []] |}.

(** A table whose rows are already in ascending order of the second column
    and have the same text in the first. *)
Definition ordered_page : page :=
  {| nodes := list_to_map
                [(0, demo_row ["Acme"; "5"]%string);
                 (1, demo_row ["Acme"; "30"]%string);
                 (2, demo_row ["Acme"; "100"]%string)]%nat;
     tBody := Some [0; 1; 2]%nat;
     data_sort_col := None;
     data_sort_dir := None;
     headers := [Th (lit "0") None []; Th (lit "1") (Some (lit "number")) []] |}.

(** The cell text "€5": the euro sign (U+20AC) and the digit 5. *)
Definition euro5 : jsstring := [8364; 53]%N.

(** A modal that is closed. *)
Definition demo_doc : gmap nat modalElement :=
  {[ 7%nat := ModalElement [lit "modal"; lit "hidden"] (Some (lit "true")) ]}.

(** A clipboard that rejects every write. *)
Definition denied_clipboard (text : jsstring) : completion (promise unit) :=
  Normal (Rejected "NotAllowedError").

(** A canvas whose inline configuration is not JSON. *)
Definition bad_canvas : canvas :=
  Canvas [lit "chart-canvas"] (Some (lit "{oops")) true.

(** A page on which a theme was chosen earlier, and a fresh one. *)
Definition working_storage : storage := Storage (Some (lit "light")) false false.

Definition disabled_storage : storage := Storage None true true.

Definition demo_theme : themePage := ThemePage [lit "no-js"] working_storage [].

(** A menu (node 9) that is collapsed and hidden. *)
Definition demo_menu : menuPage :=
  MenuPage (Some (lit "false")) {[ 9%nat := [lit "nav"; lit "hidden"] ]}.

(** A button that copies a phone number, and a clipboard that accepts it. *)
Definition phone_button : copyButton :=
  CopyButton (Some (lit "+970 59 000")) (Some (lit "#phone")) [lit "copy-btn"].

Definition granted_clipboard (text : jsstring) : completion (promise unit) :=
  Normal (Fulfilled tt).

(** A canvas with an inline configuration, the object with the member "a"
    equal to 1 (written in code units, from the brace to the brace), and a
    canvas without any configuration. *)
Definition good_canvas : canvas :=
  Canvas [lit "chart-canvas"] (Some [123; 34; 97; 34; 58; 49; 125]%N) true.

Definition plain_canvas : canvas := Canvas [lit "chart-canvas"] None true.

(** A [<div class="chart-canvas">], which has no [getContext]. *)
Definition div_canvas : canvas := Canvas [lit "chart-canvas"] None false.

(** ** Properties of the string functions *)

Lemma str_eqb_eq a b : str_eqb a b = true <-> a = b.
Proof. unfold str_eqb. apply bool_decide_eq_true. Qed.

Lemma str_eqb_refl a : str_eqb a a = true.
Proof. by apply str_eqb_eq. Qed.

Lemma startsWith_prefix s q : startsWith s q = true <-> exists post, s = q ++ post.
Proof.
  revert s. induction q as [|c q IH]; intros s; simpl.
  - split; [intros _; by exists s | done].
  - destruct s as [|d s].
    + split; [done | intros [post Hp]; discriminate].
    + rewrite andb_true_iff, N.eqb_eq, IH. split.
      * intros [-> [post ->]]. by exists post.
      * intros [post Hp]. injection Hp as -> ->. eauto.
Qed.

Lemma includes_substring s q : includes s q = true <-> substring q s.
Proof.
  unfold substring. induction s as [|d s IH]; simpl.
  - rewrite orb_false_r, startsWith_prefix. split.
    + intros [post Hp]. by exists [], post.
    + intros [pre [post Hp]]. destruct pre; simpl in Hp.
      * by exists post.
      * discriminate.
  - rewrite orb_true_iff, startsWith_prefix, IH. split.
    + intros [[post Hp] | [pre [post Hp]]].
      * by exists [], post.
      * exists (d :: pre), post. simpl. by f_equal.
    + intros [pre [post Hp]]. destruct pre as [|c pre]; simpl in Hp.
      * left. by exists post.
      * right. injection Hp as _ ->. by exists pre, post.
Qed.

(** ** The filter *)

Section FilterFacts.
Context `{Engine}.

Lemma filter_display_set q d e :
  filter_display q (set_display d e) = filter_display q e.
Proof. reflexivity. Qed.

(** The store after the listener: captured nodes get the computed display,
    the others are untouched. *)
Lemma filter_nodes_lookup q (items : list nat) (m : gmap nat element) (id : nat) :
  fold_left (fun m it => alter (fun e => set_display (filter_display q e) e) it m)
            items m !! id
  = if decide (id ∈ items)
    then (fun e => set_display (filter_display q e) e) <$> m !! id
    else m !! id.
Proof.
  revert m. induction items as [|a items IH]; intros m.
  - reflexivity.
  - cbn [fold_left]. rewrite IH, lookup_alter.
    destruct (decide (id ∈ a :: items)) as [Hin|Hnin];
      destruct (decide (id ∈ items)) as [Hin'|Hnin'];
      destruct (decide (a = id)) as [->|Hne]; try done.
    + destruct (m !! id) as [e|]; simpl; [|done].
      by rewrite filter_display_set.
    + apply elem_of_cons in Hin as [?|?]; [congruence | done].
    + exfalso. apply Hnin, elem_of_cons. auto.
    + exfalso. apply Hnin, elem_of_cons. auto.
    + exfalso. apply Hnin, elem_of_cons. auto.
Qed.

Lemma filterHandler_lookup items value p id :
  nodes (filterHandler items value p) !! id
  = if decide (id ∈ items)
    then (fun e => set_display (filter_display (toLowerCase (trim value)) e) e)
           <$> nodes p !! id
    else nodes p !! id.
Proof. unfold filterHandler. simpl. apply filter_nodes_lookup. Qed.

Lemma filterHandler_idem items value p :
  filterHandler items value (filterHandler items value p)
  = filterHandler items value p.
Proof.
  unfold filterHandler at 1 3. simpl. unfold set_nodes. simpl. f_equal.
  apply map_eq. intros id.
  rewrite !filter_nodes_lookup.
  case_decide; [|done].
  destruct (nodes p !! id) as [e|]; simpl; [|done].
  by rewrite filter_display_set.
Qed.
End FilterFacts.

(** ** The order on keys *)

Lemma str_compare_refl a : str_compare a a = Eq.
Proof. induction a as [|c a IH]; simpl; [done|]. by rewrite N.compare_refl. Qed.

Lemma str_compare_eq a b : str_compare a b = Eq -> a = b.
Proof.
  revert b. induction a as [|c a IH]; intros [|d b]; simpl; try done.
  destruct (N.compare_spec c d) as [->| |]; try done.
  intros Hc. f_equal. by apply IH.
Qed.

Lemma str_compare_antisym a b : str_compare b a = CompOpp (str_compare a b).
Proof.
  revert b. induction a as [|c a IH]; intros [|d b]; simpl; try done.
  rewrite (N.compare_antisym c d).
  destruct (c ?= d)%N; simpl; auto.
Qed.

Lemma str_compare_le_trans a b c :
  str_compare a b <> Gt -> str_compare b c <> Gt -> str_compare a c <> Gt.
Proof.
  revert b c. induction a as [|x a IH]; intros [|y b] [|z c]; simpl; try done.
  destruct (N.compare_spec x y) as [->|Hxy|Hxy]; try done.
  - destruct (N.compare_spec y z) as [->|Hyz|Hyz]; try done. apply IH.
  - intros _. destruct (N.compare_spec y z) as [->|Hyz|Hyz]; try done.
    + intros _. destruct (N.compare_spec x z); [lia | done | lia].
    + intros _. destruct (N.compare_spec x z); [lia | done | lia].
Qed.

Lemma SFcompare_antisym x y :
  SFcompare y x = option_map CompOpp (SFcompare x y).
Proof.
  destruct x as [[]|[]| |[] mx ex], y as [[]|[]| |[] my ey]; simpl; try reflexivity;
    rewrite (Z.compare_antisym ex ey);
    change (Pos.compare_cont Eq my mx) with (Pos.compare my mx);
    change (Pos.compare_cont Eq mx my) with (Pos.compare mx my);
    rewrite (Pos.compare_antisym mx my);
    destruct (ex ?= ey); simpl; try reflexivity;
    destruct (mx ?= my)%positive; reflexivity.
Qed.

Lemma SFleb_total x y : x <> NaN -> y <> NaN -> SFleb x y = true \/ SFleb y x = true.
Proof.
  intros Hx Hy. unfold SFleb. rewrite (SFcompare_antisym x y).
  destruct x as [[]|[]| |[] mx ex], y as [[]|[]| |[] my ey]; try done; simpl; auto;
    destruct (ex ?= ey); simpl; auto;
    change (Pos.compare_cont Eq mx my) with (Pos.compare mx my);
    destruct (mx ?= my)%positive; simpl; auto.
Qed.

Ltac compare_cases :=
  repeat match goal with
    | H : context [Pos.compare_cont Eq ?a ?b] |- _ =>
        change (Pos.compare_cont Eq a b) with (Pos.compare a b) in H
    | |- context [Pos.compare_cont Eq ?a ?b] =>
        change (Pos.compare_cont Eq a b) with (Pos.compare a b)
    end;
  repeat match goal with
    | H : context [Z.compare ?a ?b] |- _ => destruct (Z.compare_spec a b); simpl in H
    | H : context [Pos.compare ?a ?b] |- _ => destruct (Pos.compare_spec a b); simpl in H
    | |- context [Z.compare ?a ?b] => destruct (Z.compare_spec a b); simpl
    | |- context [Pos.compare ?a ?b] => destruct (Pos.compare_spec a b); simpl
    end;
  try done; try lia.

Lemma SFleb_trans x y z : SFleb x y = true -> SFleb y z = true -> SFleb x z = true.
Proof.
  unfold SFleb.
  destruct x as [[]|[]| |[] mx ex], y as [[]|[]| |[] my ey], z as [[]|[]| |[] mz ez];
    simpl; try done; intros Hxy Hyz; compare_cases.
Qed.

(** On numbers other than [NaN], [va === vb || !(va > vb)] is [va <= vb]. *)
Lemma num_le_asc x y :
  x <> NaN -> y <> NaN -> SFeqb x y || negb (SFltb y x) = SFleb x y.
Proof.
  intros Hx Hy. unfold SFeqb, SFltb, SFleb. rewrite (SFcompare_antisym x y).
  destruct x as [[]|[]| |[] mx ex], y as [[]|[]| |[] my ey]; try done; simpl;
    destruct (ex ?= ey); simpl; try done;
    change (Pos.compare_cont Eq mx my) with (Pos.compare mx my);
    destruct (mx ?= my)%positive; done.
Qed.

Lemma num_le_desc x y :
  x <> NaN -> y <> NaN -> SFeqb x y || SFltb y x = SFleb y x.
Proof.
  intros Hx Hy. unfold SFeqb, SFltb, SFleb. rewrite (SFcompare_antisym x y).
  destruct x as [[]|[]| |[] mx ex], y as [[]|[]| |[] my ey]; try done; simpl;
    destruct (ex ?= ey); simpl; try done;
    change (Pos.compare_cont Eq mx my) with (Pos.compare mx my);
    destruct (mx ?= my)%positive; done.
Qed.

Lemma str_le_asc a b :
  str_eqb a b || negb (str_gtb a b) = negb (str_gtb a b).
Proof.
  destruct (str_eqb a b) eqn:E; [|done].
  apply str_eqb_eq in E as ->. unfold str_gtb. by rewrite str_compare_refl.
Qed.

Lemma str_le_desc a b :
  str_eqb a b || str_gtb a b = negb (str_gtb b a).
Proof.
  unfold str_gtb. rewrite (str_compare_antisym a b).
  destruct (str_eqb a b) eqn:E.
  - apply str_eqb_eq in E as ->. by rewrite str_compare_refl.
  - destruct (str_compare a b) eqn:C; try done.
    apply str_compare_eq in C. apply str_eqb_eq in C. congruence.
Qed.

(** ** Stable sorting *)

Section StableSort.
Context {A : Type} (le : A -> A -> bool).
Hypothesis le_total : forall a b, le a b = true \/ le b a = true.
Hypothesis le_trans : forall a b c, le a b = true -> le b c = true -> le a c = true.

Lemma insert_perm x l : Permutation (insert le x l) (x :: l).
Proof using Type.
  induction l as [|y l IH]; simpl; [done|].
  destruct (le x y); [done|].
  rewrite IH. apply perm_swap.
Qed.

Lemma isort_perm l : Permutation (isort le l) l.
Proof using Type.
  induction l as [|x l IH]; simpl; [done|].
  rewrite insert_perm. by constructor.
Qed.

Lemma insert_sorted x l : sorted le l -> sorted le (insert le x l).
Proof using le_total le_trans.
  unfold sorted. induction l as [|y l IH]; simpl; intros Hs.
  - repeat constructor.
  - apply StronglySorted_inv in Hs as [Hl Hy].
    destruct (le x y) eqn:Hxy.
    + constructor; [by constructor|].
      constructor; [done|].
      eapply Forall_impl; [exact Hy|]. intros z Hz. simpl in Hz. eauto.
    + constructor; [by apply IH|].
      assert (Hyx : le y x = true) by (destruct (le_total x y); congruence).
      apply Forall_forall. intros z Hz.
      apply list_elem_of_In in Hz.
      apply (Permutation_in _ (insert_perm x l)) in Hz as [<-|Hz]; [done|].
      rewrite Forall_forall in Hy. apply Hy. by apply list_elem_of_In.
Qed.

Lemma isort_sorted l : sorted le (isort le l).
Proof using le_total le_trans.
  induction l as [|x l IH]; simpl; [constructor | by apply insert_sorted].
Qed.

Lemma tied_refl a : tied le a a = true.
Proof using le_total.
  unfold tied. destruct (le_total a a) as [-> | ->]; done.
Qed.

Lemma tied_sym a b : tied le a b = tied le b a.
Proof using Type. unfold tied. apply andb_comm. Qed.

(** Insertion moves [x] only past elements strictly before it in the
    order, so no class of tied elements is reordered. *)
Lemma insert_tied z x l :
  List.filter (tied le z) (insert le x l) = List.filter (tied le z) (x :: l).
Proof using le_trans.
  induction l as [|y l IH]; [done|].
  cbn [insert]. destruct (le x y) eqn:Hxy; [done|].
  cbn [List.filter] in *. rewrite IH.
  destruct (tied le z x) eqn:Hzx; [|done].
  destruct (tied le z y) eqn:Hzy; [|done].
  unfold tied in Hzx, Hzy.
  apply andb_true_iff in Hzx as [_ Hxz]. apply andb_true_iff in Hzy as [Hzy _].
  rewrite (le_trans _ _ _ Hxz Hzy) in Hxy. done.
Qed.

Lemma isort_tied z l :
  List.filter (tied le z) (isort le l) = List.filter (tied le z) l.
Proof using le_trans.
  induction l as [|x l IH]; [done|].
  cbn [isort]. rewrite insert_tied. cbn [List.filter]. by rewrite IH.
Qed.

(** A sorted list is determined by the order of its tied elements. *)
Lemma sorted_unique s1 s2 :
  sorted le s1 -> sorted le s2 ->
  (forall z, List.filter (tied le z) s1 = List.filter (tied le z) s2) ->
  s1 = s2.
Proof using le_total.
  unfold sorted. revert s2. induction s1 as [|a s1 IH]; intros [|b s2] H1 H2 Hf.
  - done.
  - specialize (Hf b). cbn [List.filter] in Hf. by rewrite tied_refl in Hf.
  - specialize (Hf a). cbn [List.filter] in Hf. by rewrite tied_refl in Hf.
  - apply StronglySorted_inv in H1 as [H1 Ha].
    apply StronglySorted_inv in H2 as [H2 Hb].
    rewrite Forall_forall in Ha, Hb.
    assert (a = b) as <-.
    { pose proof (Hf a) as Hfa. pose proof (Hf b) as Hfb.
      cbn [List.filter] in Hfa, Hfb.
      rewrite tied_refl in Hfa, Hfb. rewrite (tied_sym b a) in Hfb.
      destruct (tied le a b) eqn:Hab; [congruence|].
      assert (In a s2) as Hin2.
      { eapply (proj1 (List.filter_In (tied le a) a s2)).
        rewrite <- Hfa. by left. }
      assert (In b s1) as Hin1.
      { eapply (proj1 (List.filter_In (tied le b) b s1)).
        rewrite Hfb. by left. }
      apply list_elem_of_In in Hin1, Hin2.
      unfold tied in Hab. rewrite (Ha _ Hin1), (Hb _ Hin2) in Hab. done. }
    f_equal. apply IH; [done | done |].
    intros z. specialize (Hf z). cbn [List.filter] in Hf.
    destruct (tied le z a); congruence.
Qed.
End StableSort.

(** Sorting by [le] after sorting by an order with the same ties gives the
    list sorted by [le]. *)
Lemma isort_after {A} (le le' : A -> A -> bool) l :
  (forall a b, le a b = true \/ le b a = true) ->
  (forall a b c, le a b = true -> le b c = true -> le a c = true) ->
  (forall a b c, le' a b = true -> le' b c = true -> le' a c = true) ->
  (forall a b, tied le' a b = tied le a b) ->
  isort le (isort le' l) = isort le l.
Proof.
  intros Htot Htr Htr' Htied.
  apply (sorted_unique le Htot); [by apply isort_sorted | by apply isort_sorted |].
  intros z. rewrite !(isort_tied le Htr).
  rewrite <- (List.filter_ext _ _ (Htied z) (isort le' l)).
  rewrite <- (List.filter_ext _ _ (Htied z) l).
  apply (isort_tied le' Htr').
Qed.

(** ** Re-attaching rows *)

Lemma filter_all {A} (f : A -> bool) (l : list A) :
  (forall x, In x l -> f x = true) -> List.filter f l = l.
Proof.
  induction l as [|x l IH]; simpl; intros Hf; [done|].
  rewrite (Hf x) by auto. f_equal. apply IH. auto.
Qed.

Lemma filter_none {A} (f : A -> bool) (l : list A) :
  (forall x, In x l -> f x = false) -> List.filter f l = [].
Proof.
  induction l as [|x l IH]; simpl; intros Hf; [done|].
  rewrite (Hf x) by auto. apply IH. auto.
Qed.

Lemma filter_twice {A} (f g : A -> bool) (l : list A) :
  List.filter f (List.filter g l) = List.filter (fun x => g x && f x) l.
Proof.
  induction l as [|x l IH]; simpl; [done|].
  destruct (g x); simpl; [destruct (f x)|]; by rewrite IH.
Qed.

(** Appending the nodes of a duplicate-free list in turn moves them, in
    that order, behind the other children. *)
Lemma fold_appendChild (moved children : list nat) :
  NoDup moved ->
  fold_left appendChild moved children
  = List.filter (fun c => negb (existsb (Nat.eqb c) moved)) children ++ moved.
Proof.
  revert children. induction moved as [|x moved IH]; intros children Hnd.
  - simpl. rewrite filter_all by done. by rewrite app_nil_r.
  - apply NoDup_cons in Hnd as [Hx Hnd].
    cbn [fold_left]. rewrite (IH _ Hnd). unfold appendChild.
    rewrite List.filter_app, filter_twice. cbn [List.filter].
    assert (existsb (Nat.eqb x) moved = false) as ->.
    { apply not_true_is_false. intros [y [Hy ->%Nat.eqb_eq]]%existsb_exists.
      by apply Hx, list_elem_of_In. }
    cbn [negb]. rewrite <- app_assoc. cbn [app]. f_equal.
    apply List.filter_ext. intros c. cbn [existsb]. by rewrite negb_orb.
Qed.

Lemma reattach_rows (isRow : nat -> bool) (children order : list nat) :
  NoDup children ->
  Permutation order (List.filter isRow children) ->
  fold_left appendChild order children
  = List.filter (fun c => negb (isRow c)) children ++ order.
Proof.
  intros Hnd Hperm.
  rewrite fold_appendChild.
  - f_equal. apply List.filter_ext_in. intros c Hc. f_equal.
    apply eq_true_iff_eq. rewrite existsb_exists. split.
    + intros [y [Hy ->%Nat.eqb_eq]].
      apply (Permutation_in _ Hperm) in Hy. by apply List.filter_In in Hy as [_ ?].
    + intros Hr. exists c. split; [|apply Nat.eqb_refl].
      apply (Permutation_in _ (Permutation_sym Hperm)).
      by apply List.filter_In.
  - rewrite Hperm. apply NoDup_ListNoDup, List.NoDup_filter.
    by apply NoDup_ListNoDup.
Qed.

Lemma rows_after_reattach (isRow : nat -> bool) (children order : list nat) :
  Permutation order (List.filter isRow children) ->
  List.filter isRow (List.filter (fun c => negb (isRow c)) children ++ order) = order.
Proof.
  intros Hperm. rewrite List.filter_app, filter_twice.
  rewrite (filter_none (fun x => negb (isRow x) && isRow x)).
  - simpl. apply filter_all. intros x Hx.
    apply (Permutation_in _ Hperm) in Hx. by apply List.filter_In in Hx as [_ ?].
  - intros x _. by destruct (isRow x).
Qed.

Lemma reattach_perm (isRow : nat -> bool) (children order : list nat) :
  Permutation order (List.filter isRow children) ->
  Permutation (List.filter (fun c => negb (isRow c)) children ++ order) children.
Proof.
  intros ->. induction children as [|c children IH]; simpl; [done|].
  destruct (isRow c); simpl.
  - rewrite <- Permutation_middle. by constructor.
  - by constructor.
Qed.

(** ** The sort handler *)

Lemma key_le_asc_num x y :
  x <> NaN -> y <> NaN -> key_le 1 (KNum x) (KNum y) = SFleb x y.
Proof.
  intros Hx Hy. rewrite <- (num_le_asc x y Hx Hy). unfold key_le. simpl.
  by destruct (SFltb y x).
Qed.

Lemma key_le_desc_num x y :
  x <> NaN -> y <> NaN -> key_le (-1) (KNum x) (KNum y) = SFleb y x.
Proof.
  intros Hx Hy. rewrite <- (num_le_desc x y Hx Hy). unfold key_le. simpl.
  by destruct (SFltb y x).
Qed.

Lemma key_le_asc_str a b : key_le 1 (KStr a) (KStr b) = negb (str_gtb a b).
Proof.
  rewrite <- (str_le_asc a b). unfold key_le. simpl. by destruct (str_gtb a b).
Qed.

Lemma key_le_desc_str a b : key_le (-1) (KStr a) (KStr b) = negb (str_gtb b a).
Proof.
  rewrite <- (str_le_desc a b). unfold key_le. simpl. by destruct (str_gtb a b).
Qed.

Lemma str_le_total a b : negb (str_gtb a b) = true \/ negb (str_gtb b a) = true.
Proof.
  unfold str_gtb. rewrite (str_compare_antisym a b).
  destruct (str_compare a b); simpl; auto.
Qed.

Lemma str_le_trans a b c :
  negb (str_gtb a b) = true -> negb (str_gtb b c) = true -> negb (str_gtb a c) = true.
Proof.
  unfold str_gtb. intros Hab Hbc.
  pose proof (str_compare_le_trans a b c) as Ht.
  destruct (str_compare a b), (str_compare b c), (str_compare a c); try done;
    exfalso; by apply Ht.
Qed.

Lemma sortBy_isort {A} (cmp : A -> A -> completion Z) (f : A -> A -> Z) (l : list A) :
  (forall a b, cmp a b = Normal (f a b)) ->
  sortBy cmp l = Normal (isort (fun a b => f a b <=? 0) l).
Proof.
  intros Hcmp.
  assert (Hins : forall x s,
    insertBy cmp x s = Normal (insert (fun a b => f a b <=? 0) x s)).
  { intros x s. induction s as [|y s IH]; simpl; [done|].
    rewrite Hcmp. simpl. destruct (f x y <=? 0); [done|]. by rewrite IH. }
  induction l as [|x l IH]; simpl; [done|].
  rewrite IH. simpl. apply Hins.
Qed.

Lemma isort_ext {A} (le le' : A -> A -> bool) (l : list A) :
  (forall a b, le a b = le' a b) -> isort le l = isort le' l.
Proof.
  intros Hext.
  assert (Hins : forall x s, insert le x s = insert le' x s).
  { intros x s. induction s as [|y s IH]; simpl; [done|]. by rewrite Hext, IH. }
  induction l as [|x l IH]; simpl; [done|]. by rewrite IH, Hins.
Qed.

Section SortFacts.
Context `{Engine}.

Lemma number_key_not_nan t : number_key t <> NaN.
Proof. unfold number_key. by destruct (parseFloat (strip (trim t))). Qed.

(** With the fallback for a missing cell, reading the key never throws. *)
Lemma parseCellValue_row e index type :
  parseCellValue (or_empty_cell (cells_item e index)) type
  = Normal (text_key type (cell_text e index)).
Proof.
  unfold cell_text, text_key, number_key.
  destruct (cells_item e index); simpl; by destruct (str_eqb type (lit "number")).
Qed.

Lemma compareRows_normal m index type dir a b :
  compareRows m index type dir a b
  = Normal (if key_eqb (row_key m index type a) (row_key m index type b) then 0
            else if key_gtb (row_key m index type a) (row_key m index type b)
                 then dir else - dir).
Proof.
  unfold compareRows, row_key. rewrite !parseCellValue_row. simpl.
  by destruct (key_eqb _ _).
Qed.

Lemma sortBy_rows m index type dir rows :
  sortBy (compareRows m index type dir) rows
  = Normal (isort (row_le m index type dir) rows).
Proof.
  rewrite (sortBy_isort _ _ rows (compareRows_normal m index type dir)).
  f_equal. apply isort_ext. intros a b.
  unfold row_le, key_le. by destruct (key_eqb _ _).
Qed.

Lemma row_le_total m index type a b :
  row_le m index type 1 a b = true \/ row_le m index type 1 b a = true.
Proof.
  unfold row_le, row_key, text_key.
  destruct (str_eqb type (lit "number")).
  - rewrite !key_le_asc_num by apply number_key_not_nan.
    apply SFleb_total; apply number_key_not_nan.
  - rewrite !key_le_asc_str. apply str_le_total.
Qed.

Lemma row_le_trans m index type a b c :
  row_le m index type 1 a b = true -> row_le m index type 1 b c = true ->
  row_le m index type 1 a c = true.
Proof.
  unfold row_le, row_key, text_key.
  destruct (str_eqb type (lit "number")).
  - rewrite !key_le_asc_num by apply number_key_not_nan. apply SFleb_trans.
  - rewrite !key_le_asc_str. apply str_le_trans.
Qed.

(** The descending order is the ascending one turned round. *)
Lemma row_le_desc m index type a b :
  row_le m index type (-1) a b = row_le m index type 1 b a.
Proof.
  unfold row_le, row_key, text_key.
  destruct (str_eqb type (lit "number")).
  - rewrite key_le_asc_num, key_le_desc_num by apply number_key_not_nan. done.
  - by rewrite key_le_asc_str, key_le_desc_str.
Qed.

Lemma sort_dir_cases index p : sort_dir index p = 1 \/ sort_dir index p = -1.
Proof. unfold sort_dir. destruct (_ && _); auto. Qed.

Lemma row_le_dir_total m index type dir a b :
  dir = 1 \/ dir = -1 ->
  row_le m index type dir a b = true \/ row_le m index type dir b a = true.
Proof.
  intros [-> | ->]; [apply row_le_total|].
  rewrite !row_le_desc. apply row_le_total.
Qed.

Lemma row_le_dir_trans m index type dir a b c :
  dir = 1 \/ dir = -1 ->
  row_le m index type dir a b = true -> row_le m index type dir b c = true ->
  row_le m index type dir a c = true.
Proof.
  intros [-> | ->]; [apply row_le_trans|].
  rewrite !row_le_desc. intros Hab Hbc. by apply (row_le_trans _ _ _ c b a).
Qed.

Lemma row_tied_dir m index type dir dir' a b :
  dir = 1 \/ dir = -1 -> dir' = 1 \/ dir' = -1 ->
  tied (row_le m index type dir') a b = tied (row_le m index type dir) a b.
Proof.
  unfold tied. intros [-> | ->] [-> | ->]; rewrite ?row_le_desc; try done;
    apply andb_comm.
Qed.

(** What the handler computes on a table with a body. *)
Lemma makeSortHandler_body index type p children :
  tBody p = Some children ->
  makeSortHandler index type p
  = Normal {| nodes := nodes p;
              tBody := Some (fold_left appendChild
                               (sorted_rows (nodes p) index type (sort_dir index p) children)
                               children);
              data_sort_col := Some (String_of_index index);
              data_sort_dir := Some (if sort_dir index p =? 1 then lit "asc"
                                     else lit "desc");
              headers := headers p |}.
Proof.
  intros Hb. unfold makeSortHandler. rewrite Hb. by rewrite sortBy_rows.
Qed.

Lemma sorted_rows_perm m index type dir children :
  Permutation (sorted_rows m index type dir children)
              (List.filter (fun c => isTr (m !!! c)) children).
Proof. apply isort_perm. Qed.

(** On a body without repeated nodes, the rows end up behind the other
    children, in sorted order. *)
Lemma reattach_sorted m index type dir children :
  NoDup children ->
  fold_left appendChild (sorted_rows m index type dir children) children
  = other_children m children ++ sorted_rows m index type dir children.
Proof.
  intros Hnd.
  apply (reattach_rows (fun c => isTr (m !!! c))); [done|].
  apply sorted_rows_perm.
Qed.

Lemma tbody_rows_reattached m index type dir children :
  tbody_rows m (other_children m children ++ sorted_rows m index type dir children)
  = sorted_rows m index type dir children.
Proof.
  apply (rows_after_reattach (fun c => isTr (m !!! c))), sorted_rows_perm.
Qed.

Lemma other_children_reattached m index type dir children :
  other_children m (other_children m children ++ sorted_rows m index type dir children)
  = other_children m children.
Proof.
  unfold other_children. rewrite List.filter_app, filter_twice.
  rewrite (filter_none _ (sorted_rows m index type dir children)).
  - rewrite app_nil_r. apply List.filter_ext. intros c. apply andb_diag.
  - intros x Hx. apply (Permutation_in _ (sorted_rows_perm m index type dir children)) in Hx.
    apply List.filter_In in Hx as [_ ->]. done.
Qed.
End SortFacts.

(** ** The filter: visibility and idempotence *)

(** C1: after the filter listener has run, a captured row is visible exactly
    when the trimmed, lower-cased query is empty or occurs in the row's
    trimmed, lower-cased text content; a row failing the test has its display
    set to 'none'. *)
Theorem filter_shows_matching_rows `{Engine}
  (items : list nat) (value : jsstring) (p : page) (id : nat) (e : element) :
  id ∈ items ->
  nodes p !! id = Some e ->
  let q := toLowerCase (trim value) in
  let text := toLowerCase (trim (textContent e)) in
  exists e', nodes (filterHandler items value p) !! id = Some e'
    /\ (visible e' <-> q = [] \/ substring q text)
    /\ (~ (q = [] \/ substring q text) -> display e' = lit "none").
Proof.
  intros Hin He q text.
  exists (set_display (filter_display q e) e). split.
  - rewrite filterHandler_lookup, He. by rewrite decide_True.
  - unfold visible, filter_display. simpl. fold text.
    destruct (str_eqb q [] || includes text q) eqn:Hc.
    + apply orb_true_iff in Hc. rewrite str_eqb_eq, includes_substring in Hc.
      split; [by split | by intros []].
    + apply orb_false_iff in Hc as [Hq Hi].
      assert (Hno : ~ (q = [] \/ substring q text)).
      { intros [Hq' | Hs].
        - apply str_eqb_eq in Hq'. congruence.
        - apply includes_substring in Hs. congruence. }
      split; [split; [by intros [] | by intros ?] | done].
Qed.

Lemma filter_shows_matching_rows_witness :
  exists e', nodes (filterHandler [0; 1; 2]%nat (lit " PH ") demo_page) !! 0%nat = Some e'
    /\ (visible e' <->
          toLowerCase (trim (lit " PH ")) = []
          \/ substring (toLowerCase (trim (lit " PH ")))
               (toLowerCase (trim (textContent (demo_row ["Pharma Co"; "30"]%string)))))
    /\ (~ (toLowerCase (trim (lit " PH ")) = []
           \/ substring (toLowerCase (trim (lit " PH ")))
                (toLowerCase (trim (textContent (demo_row ["Pharma Co"; "30"]%string)))))
        -> display e' = lit "none").
Proof.
  apply (filter_shows_matching_rows [0; 1; 2]%nat (lit " PH ") demo_page 0%nat
           (demo_row ["Pharma Co"; "30"]%string)).
  - apply list_elem_of_In. simpl. auto.
  - reflexivity.
Defined.

(** The scenario of the specification: the query "ph" keeps "Pharma Co" and
    "Alpha" and hides "Other". *)
Example filter_scenario :
  visible_rows [0; 1; 2]%nat (filterHandler [0; 1; 2]%nat (lit "ph") demo_page)
  = [0; 2]%nat.
Proof. vm_compute. reflexivity. Qed.

(** C7: running the filter listener twice with the same query leaves the
    page, and so the set of visible rows, as running it once does. *)
Theorem filter_idempotent `{Engine} (items rows : list nat) (value : jsstring) (p : page) :
  filterHandler items value (filterHandler items value p)
  = filterHandler items value p
  /\ visible_rows rows (filterHandler items value (filterHandler items value p))
     = visible_rows rows (filterHandler items value p).
Proof. by rewrite filterHandler_idem. Qed.

(** ** Sorting: keys, direction and rank *)

Lemma sorted_app_before {A} (le : A -> A -> bool) pre r post :
  sorted le (pre ++ r :: post) -> forall x, In x pre -> le x r = true.
Proof.
  unfold sorted. induction pre as [|a pre IH]; simpl; intros Hs x Hx; [done|].
  apply StronglySorted_inv in Hs as [Hs Ha].
  destruct Hx as [<- | Hx]; [|by apply IH].
  rewrite Forall_forall in Ha. apply Ha.
  apply list_elem_of_In, in_or_app. right. by left.
Qed.

Lemma sorted_app_after {A} (le : A -> A -> bool) pre r post :
  sorted le (pre ++ r :: post) -> forall y, In y post -> le r y = true.
Proof.
  unfold sorted. induction pre as [|a pre IH]; simpl; intros Hs y Hy.
  - apply StronglySorted_inv in Hs as [_ Hr].
    rewrite Forall_forall in Hr. by apply Hr, list_elem_of_In.
  - apply StronglySorted_inv in Hs as [Hs _]. by apply IH.
Qed.

Lemma SFleb_neg_infinity x : SFleb x NegInfinity = true -> x = NegInfinity.
Proof. by destruct x as [[]|[]| |[] m e]. Qed.

Lemma neg_infinity_least x : x <> NaN -> SFleb NegInfinity x = true.
Proof. by destruct x as [[]|[]| |[] m e]. Qed.

Lemma number_type : str_eqb (lit "number") (lit "number") = true.
Proof. apply str_eqb_refl. Qed.

Section SortClaims.
Context `{Engine}.

Lemma row_key_number m index a :
  row_key m index (lit "number") a = KNum (number_key (cell_text (m !!! a) index)).
Proof. unfold row_key, text_key. by rewrite number_type. Qed.

(** A row that may stay before a row of key -Infinity has that key too. *)
Lemma before_neg_infinity m index a r :
  number_key (cell_text (m !!! r) index) = NegInfinity ->
  row_le m index (lit "number") 1 a r = true ->
  row_key m index (lit "number") a = KNum NegInfinity.
Proof.
  intros Hr. unfold row_le. rewrite !row_key_number, Hr.
  rewrite key_le_asc_num by (apply number_key_not_nan || done).
  by intros ->%SFleb_neg_infinity.
Qed.

Lemma trimStart_incl s c : In c (trimStart s) -> In c s.
Proof.
  induction s as [|d s IH]; [done|]. cbn [trimStart].
  destruct (isWhiteSpace d); [|done]. intros Hc. right. by apply IH.
Qed.

Lemma trim_incl s c : In c (trim s) -> In c s.
Proof.
  unfold trim, trimEnd. intros Hc%in_rev%trimStart_incl%in_rev.
  by apply trimStart_incl.
Qed.

(** On a text whose only currency symbols are dollar signs, the code strips
    what the specification strips. *)
Lemma spec_strip_dollar_only t :
  (forall c, In c t -> is_currency_symbol c = true -> c = 36%N) ->
  spec_strip t = strip t.
Proof.
  intros Hd. unfold spec_strip, strip. apply filter_ext_in. intros c Hc.
  unfold stripped. f_equal.
  destruct (is_currency_symbol c) eqn:Hcur.
  - rewrite (Hd c Hc Hcur). reflexivity.
  - replace (c =? 36)%N with false; [done|].
    symmetry. apply N.eqb_neq. intros ->. done.
Qed.

Lemma key_neg_infinity e index :
  parseCellValue (or_empty_cell (cells_item e index)) (lit "number")
  = Normal (KNum NegInfinity) ->
  number_key (cell_text e index) = NegInfinity.
Proof.
  rewrite parseCellValue_row. unfold text_key. rewrite number_type. congruence.
Qed.

(** C2 (amended): on a text without a currency symbol other than the dollar
    sign, the key of a numeric cell is the value that [parseFloat] reads in
    the trimmed text without its commas, currency symbols, white space and
    percent signs, and -Infinity when that value is not finite: the text
    cannot be parsed, or it reads as an infinity.  After an ascending sort
    on a numeric column every row before a row of key -Infinity has the key
    -Infinity too, so no row with a greater key precedes it, and after a
    descending sort every row after it. *)
Theorem number_key_and_rank (index : jsindex) (p : page) (children : list nat) :
  tBody p = Some children ->
  NoDup children ->
  (forall text,
      (forall c, In c text -> is_currency_symbol c = true -> c = 36%N) ->
      parseCellValue (Cell text) (lit "number")
      = Normal (KNum (let v := parseFloat (spec_strip (trim text)) in
                      if isFinite v then v else NegInfinity))
      /\ (isFinite (parseFloat (spec_strip (trim text))) = false ->
          parseCellValue (Cell text) (lit "number") = Normal (KNum NegInfinity)))
  /\ (forall text,
        unparseable text -> isFinite (parseFloat (strip (trim text))) = false)
  /\ (forall text,
        isFinite (parseFloat (strip (trim text))) = false ->
        parseCellValue (Cell text) (lit "number") = Normal (KNum NegInfinity))
  /\ exists p' children',
       makeSortHandler index (lit "number") p = Normal p'
       /\ tBody p' = Some children'
       /\ forall pre r post,
            tbody_rows (nodes p') children' = pre ++ r :: post ->
            parseCellValue (or_empty_cell (cells_item (nodes p !!! r) index))
              (lit "number") = Normal (KNum NegInfinity) ->
            forall x, In x (if sort_dir index p =? 1 then pre else post) ->
              parseCellValue (or_empty_cell (cells_item (nodes p !!! x) index))
                (lit "number") = Normal (KNum NegInfinity).
Proof.
  intros Hb Hnd. split; [|split; [|split]].
  - intros text Hd.
    assert (Hs : spec_strip (trim text) = strip (trim text)).
    { apply spec_strip_dollar_only. intros c Hc. apply Hd. by apply trim_incl. }
    rewrite Hs. unfold parseCellValue. rewrite number_type.
    split; [done|]. by intros ->.
  - unfold unparseable. by intros text ->.
  - intros text Hf. unfold parseCellValue. rewrite number_type. cbv zeta.
    by rewrite Hf.
  - eexists _, _. split; [by apply makeSortHandler_body|]. split; [done|].
    cbn [nodes].
    intros pre r post Hrows Hr x Hx.
    rewrite (reattach_sorted _ _ _ _ _ Hnd), tbody_rows_reattached in Hrows.
    pose proof (sort_dir_cases index p) as Hdir.
    assert (Hs : sorted (row_le (nodes p) index (lit "number") (sort_dir index p))
                        (pre ++ r :: post)).
    { rewrite <- Hrows. apply isort_sorted.
      - intros a b. by apply row_le_dir_total.
      - intros a b c. by apply row_le_dir_trans. }
    apply key_neg_infinity in Hr.
    rewrite parseCellValue_row. f_equal.
    change (text_key (lit "number") (cell_text (nodes p !!! x) index))
      with (row_key (nodes p) index (lit "number") x).
    apply (before_neg_infinity _ _ _ r Hr).
    destruct Hdir as [Hd | Hd]; rewrite Hd in *; cbn in Hx.
    + by apply (sorted_app_before _ _ _ _ Hs).
    + rewrite <- row_le_desc. by apply (sorted_app_after _ _ _ _ Hs).
Qed.
End SortClaims.

Lemma number_key_and_rank_witness :
  tBody demo_page = Some [3; 0; 1; 2; 4; 5]%nat
  /\ NoDup [3; 0; 1; 2; 4; 5]%nat
  /\ parseCellValue (Cell (lit "$1,250.50 ")) (lit "number")
     = Normal (KNum (parseFloat (lit "1250.50")))
  /\ exists p' children',
       makeSortHandler (IdxInt 1) (lit "number") demo_page = Normal p'
       /\ tBody p' = Some children'
       /\ forall pre r post,
            tbody_rows (nodes p') children' = pre ++ r :: post ->
            parseCellValue (or_empty_cell (cells_item (nodes demo_page !!! r) (IdxInt 1)))
              (lit "number") = Normal (KNum NegInfinity) ->
            forall x, In x (if sort_dir (IdxInt 1) demo_page =? 1 then pre else post) ->
              parseCellValue (or_empty_cell (cells_item (nodes demo_page !!! x) (IdxInt 1)))
                (lit "number") = Normal (KNum NegInfinity).
Proof.
  assert (Hb : tBody demo_page = Some [3; 0; 1; 2; 4; 5]%nat) by reflexivity.
  assert (Hnd : NoDup [3; 0; 1; 2; 4; 5]%nat)
    by (apply (bool_decide_unpack _); vm_compute; exact I).
  assert (Hd : forall c, In c (lit "$1,250.50 ") -> is_currency_symbol c = true -> c = 36%N).
  { intros c Hc. vm_compute in Hc.
    repeat (destruct Hc as [<- | Hc]; [by vm_compute|]). done. }
  split; [exact Hb|]. split; [exact Hnd|].
  destruct (number_key_and_rank (IdxInt 1) demo_page [3; 0; 1; 2; 4; 5]%nat Hb Hnd)
    as (Hkey & _ & _ & Hrank).
  split; [|exact Hrank].
  rewrite (proj1 (Hkey _ Hd)). vm_compute. reflexivity.
Defined.

(** The scenario of the specification: the amounts 30, 5, 100 come out as
    5, 30, 100 on the first click and as 100, 30, 5 on the second; the rows
    without a number are first, then last. *)
Example sort_scenario :
  order_after [(IdxInt 1, lit "number")] demo_page = Some [3; 4; 5; 1; 0; 2]%nat
  /\ order_after [(IdxInt 1, lit "number"); (IdxInt 1, lit "number")] demo_page
     = Some [3; 2; 0; 1; 4; 5]%nat.
Proof. split; vm_compute; reflexivity. Qed.

(** Two cells on which the key of the code is not the key in the words of
    the specification.  The euro sign is a currency symbol and is not
    stripped: the cell "€5" has the key -Infinity, not 5.  The cell
    "Infinity" is parsed, to +Infinity, and has the key -Infinity as well. *)
Lemma euro_cell_not_stripped :
  (parseCellValue (Cell euro5) (lit "number") = Normal (KNum NegInfinity)
   /\ spec_number_key euro5 = S754_finite false 5629499534213120 (-50)
   /\ parseCellValue (Cell euro5) (lit "number")
      <> Normal (KNum (spec_number_key euro5)))
  /\ (parseFloat (strip (trim (lit "Infinity"))) = S754_infinity false
      /\ parseCellValue (Cell (lit "Infinity")) (lit "number")
         = Normal (KNum NegInfinity)
      /\ spec_number_key (lit "Infinity") = S754_infinity false).
Proof.
  repeat split; vm_compute; try reflexivity. discriminate.
Qed.

Lemma lit_inj s t : lit s = lit t -> s = t.
Proof.
  unfold lit. intros Heq.
  rewrite <- (string_of_list_ascii_of_string s), <- (string_of_list_ascii_of_string t).
  f_equal. revert Heq.
  generalize (list_ascii_of_string s) (list_ascii_of_string t).
  intros l. induction l as [|a l IH]; intros [|b l']; simpl; try done.
  intros [= Hab Hl]. f_equal; [|by apply IH].
  by rewrite <- (ascii_N_embedding a), <- (ascii_N_embedding b), Hab.
Qed.

(** Two indices are printed alike only when they are the same index. *)
Lemma String_of_index_inj i j : String_of_index i = String_of_index j -> i = j.
Proof.
  destruct i as [|z], j as [|z']; simpl; intros Heq%lit_inj; try done.
  - apply (f_equal NilEmpty.int_of_string) in Heq.
    rewrite NilEmpty.isi in Heq. done.
  - apply (f_equal NilEmpty.int_of_string) in Heq.
    rewrite NilEmpty.isi in Heq. done.
  - apply (f_equal NilEmpty.int_of_string) in Heq.
    rewrite !NilEmpty.isi in Heq. injection Heq as Heq.
    apply (f_equal Z.of_int) in Heq. rewrite !DecimalZ.of_to in Heq. by subst.
Qed.

Lemma attr_is_true a s : attr_is a s = true <-> a = Some s.
Proof.
  destruct a as [v|]; simpl; [|done].
  rewrite str_eqb_eq. split; congruence.
Qed.

Section SortState.
Context `{Engine}.

(** C3: a click on a header reverses to descending exactly when the table
    records this column as sorted ascending, and sorts ascending in every
    other case, so also when nothing is recorded or when the column recorded
    is another one; the column and the direction used are then recorded on
    the table. *)
Theorem sort_direction_recorded (index : jsindex) (type : jsstring) (p : page)
  (children : list nat) :
  tBody p = Some children ->
  let recorded_asc :=
    data_sort_col p = Some (String_of_index index)
    /\ data_sort_dir p = Some (lit "asc") in
  exists p' dir,
    makeSortHandler index type p = Normal p'
    /\ (recorded_asc -> dir = -1)
    /\ (~ recorded_asc -> dir = 1)
    /\ (data_sort_col p = None -> dir = 1)
    /\ (forall recorded, data_sort_col p = Some (String_of_index recorded) ->
          recorded <> index -> dir = 1)
    /\ tBody p' = Some (fold_left appendChild
                          (sorted_rows (nodes p) index type dir children) children)
    /\ data_sort_col p' = Some (String_of_index index)
    /\ data_sort_dir p' = Some (if dir =? 1 then lit "asc" else lit "desc").
Proof.
  intros Hb recorded_asc.
  exists {| nodes := nodes p;
            tBody := Some (fold_left appendChild
                             (sorted_rows (nodes p) index type (sort_dir index p) children)
                             children);
            data_sort_col := Some (String_of_index index);
            data_sort_dir := Some (if sort_dir index p =? 1 then lit "asc"
                                   else lit "desc");
            headers := headers p |}, (sort_dir index p).
  split; [by apply makeSortHandler_body|].
  assert (Hdir : sort_dir index p = if bool_decide recorded_asc then -1 else 1).
  { unfold sort_dir, recorded_asc.
    destruct (attr_is (data_sort_col p) _) eqn:Hc;
      destruct (attr_is (data_sort_dir p) _) eqn:Hd; simpl.
    - apply attr_is_true in Hc, Hd. by rewrite bool_decide_eq_true_2.
    - rewrite bool_decide_eq_false_2; [done|].
      intros [_ Hd'%attr_is_true]. congruence.
    - rewrite bool_decide_eq_false_2; [done|].
      intros [Hc'%attr_is_true _]. congruence.
    - rewrite bool_decide_eq_false_2; [done|].
      intros [Hc'%attr_is_true _]. congruence. }
  repeat split; try done.
  - intros Hr. by rewrite Hdir, bool_decide_eq_true_2.
  - intros Hr. by rewrite Hdir, bool_decide_eq_false_2.
  - intros Hnone. rewrite Hdir, bool_decide_eq_false_2; [done|].
    intros [Hc _]. congruence.
  - intros recorded Hrec Hne. rewrite Hdir, bool_decide_eq_false_2; [done|].
    intros [Hc _]. rewrite Hrec in Hc. injection Hc as Hc.
    by apply String_of_index_inj in Hc.
Qed.
End SortState.

Lemma sort_direction_recorded_witness :
  tBody demo_page = Some [3; 0; 1; 2; 4; 5]%nat
  /\ exists p' dir,
       makeSortHandler (IdxInt 1) (lit "number") demo_page = Normal p'
       /\ (data_sort_col demo_page = Some (String_of_index (IdxInt 1))
           /\ data_sort_dir demo_page = Some (lit "asc") -> dir = -1)
       /\ (~ (data_sort_col demo_page = Some (String_of_index (IdxInt 1))
              /\ data_sort_dir demo_page = Some (lit "asc")) -> dir = 1)
       /\ (data_sort_col demo_page = None -> dir = 1)
       /\ (forall recorded,
             data_sort_col demo_page = Some (String_of_index recorded) ->
             recorded <> IdxInt 1 -> dir = 1)
       /\ tBody p' = Some (fold_left appendChild
                             (sorted_rows (nodes demo_page) (IdxInt 1) (lit "number") dir
                                [3; 0; 1; 2; 4; 5]%nat)
                             [3; 0; 1; 2; 4; 5]%nat)
       /\ data_sort_col p' = Some (String_of_index (IdxInt 1))
       /\ data_sort_dir p' = Some (if dir =? 1 then lit "asc" else lit "desc").
Proof.
  split; [reflexivity|].
  apply (sort_direction_recorded (IdxInt 1) (lit "number") demo_page
           [3; 0; 1; 2; 4; 5]%nat).
  reflexivity.
Defined.

(** ** Sorting again on the same column *)

Section Resort.
Context `{Engine}.

(** The handler on a body made of non-rows [others] followed by rows [rows]. *)
Lemma handler_step m index type hs others rows col dir :
  NoDup (others ++ rows) ->
  (forall x, In x others -> isTr (m !!! x) = false) ->
  (forall x, In x rows -> isTr (m !!! x) = true) ->
  let p := {| nodes := m; tBody := Some (others ++ rows);
              data_sort_col := col; data_sort_dir := dir; headers := hs |} in
  makeSortHandler index type p
  = Normal {| nodes := m;
              tBody := Some (others ++ isort (row_le m index type (sort_dir index p)) rows);
              data_sort_col := Some (String_of_index index);
              data_sort_dir := Some (if sort_dir index p =? 1 then lit "asc"
                                     else lit "desc");
              headers := hs |}.
Proof.
  intros Hnd Ho Hr p.
  rewrite (makeSortHandler_body index type p (others ++ rows) eq_refl).
  change (nodes p) with m. change (headers p) with hs. do 2 f_equal.
  assert (Hrows : List.filter (fun c => isTr (m !!! c)) (others ++ rows) = rows).
  { rewrite List.filter_app, (filter_none _ others), (filter_all _ rows); done. }
  assert (Hothers :
    List.filter (fun c => negb (isTr (m !!! c))) (others ++ rows) = others).
  { rewrite List.filter_app, (filter_all _ others), (filter_none _ rows).
    - apply app_nil_r.
    - intros x Hx. by rewrite (Hr x Hx).
    - intros x Hx. by rewrite (Ho x Hx). }
  unfold sorted_rows, tbody_rows. rewrite Hrows.
  rewrite (reattach_rows (fun c => isTr (m !!! c))); [by rewrite Hothers | done |].
  rewrite Hrows. apply isort_perm.
Qed.

Lemma sort_dir_after_sort m index children hs d :
  d = 1 \/ d = -1 ->
  sort_dir index {| nodes := m; tBody := children;
                    data_sort_col := Some (String_of_index index);
                    data_sort_dir := Some (if d =? 1 then lit "asc" else lit "desc");
                    headers := hs |}
  = - d.
Proof.
  unfold sort_dir. cbn [data_sort_col data_sort_dir attr_is].
  rewrite str_eqb_refl. by intros [-> | ->].
Qed.

(** C9 (amended): once a column has been sorted, sorting it two more times,
    with no other column sorted in between, brings the page back to what the
    first of these sorts left: ascending, descending, ascending again (or
    descending, ascending, descending), the direction being reversed by each
    of the two sorts.  The condition is sufficient, not necessary. *)
Theorem sort_twice_more_restores (index : jsindex) (type : jsstring) (p : page)
  (children : list nat) :
  tBody p = Some children ->
  NoDup children ->
  exists p1 p2 p3,
    makeSortHandler index type p = Normal p1
    /\ makeSortHandler index type p1 = Normal p2
    /\ makeSortHandler index type p2 = Normal p3
    /\ data_sort_dir p2 <> data_sort_dir p1
    /\ p3 = p1.
Proof.
  intros Hb Hnd.
  set (m := nodes p). set (d := sort_dir index p).
  set (others := other_children m children).
  set (s1 := sorted_rows m index type d children).
  assert (Hd : d = 1 \/ d = -1) by apply sort_dir_cases.
  assert (Hperm : Permutation s1 (List.filter (fun c => isTr (m !!! c)) children))
    by apply sorted_rows_perm.
  assert (Ho : forall x, In x others -> isTr (m !!! x) = false).
  { intros x [_ Hx]%List.filter_In. by apply negb_true_iff. }
  assert (Hrow : forall l, Permutation l s1 -> forall x, In x l -> isTr (m !!! x) = true).
  { intros l Hl x Hx. apply (Permutation_in _ Hl), (Permutation_in _ Hperm) in Hx.
    by apply List.filter_In in Hx as [_ ?]. }
  assert (Hnd' : forall l, Permutation l s1 -> NoDup (others ++ l)).
  { intros l Hl. rewrite Hl.
    assert (Permutation (others ++ s1) children) as ->; [|done].
    apply (reattach_perm (fun c => isTr (m !!! c)) children s1 Hperm). }
  pose proof (makeSortHandler_body index type p children Hb) as H1.
  rewrite (reattach_sorted _ _ _ _ _ Hnd) in H1. fold m d others s1 in H1.
  pose proof (handler_step m index type (headers p) others s1
                (Some (String_of_index index))
                (Some (if d =? 1 then lit "asc" else lit "desc"))
                (Hnd' s1 (Permutation_refl _)) Ho (Hrow s1 (Permutation_refl _))) as H2.
  cbv zeta in H2. rewrite (sort_dir_after_sort _ _ _ _ d Hd) in H2.
  set (s2 := isort (row_le m index type (- d)) s1) in H2.
  assert (Hs2 : Permutation s2 s1) by apply isort_perm.
  assert (Hd2 : - d = 1 \/ - d = -1) by lia.
  pose proof (handler_step m index type (headers p) others s2
                (Some (String_of_index index))
                (Some (if - d =? 1 then lit "asc" else lit "desc"))
                (Hnd' s2 Hs2) Ho (Hrow s2 Hs2)) as H3.
  cbv zeta in H3. rewrite (sort_dir_after_sort _ _ _ _ (- d) Hd2) in H3.
  rewrite Z.opp_involutive in H3.
  eexists _, _, _. split; [exact H1|]. split; [exact H2|]. split; [exact H3|].
  split.
  - cbn [data_sort_dir]. by destruct Hd as [-> | ->].
  - do 3 f_equal. unfold s2, s1, sorted_rows.
    rewrite (isort_after (row_le m index type d) (row_le m index type (- d))).
    + apply isort_after.
      * intros a b. by apply row_le_dir_total.
      * intros a b c. by apply row_le_dir_trans.
      * intros a b c. by apply row_le_dir_trans.
      * done.
    + intros a b. by apply row_le_dir_total.
    + intros a b c. by apply row_le_dir_trans.
    + intros a b c. by apply row_le_dir_trans.
    + intros a b. by apply row_tied_dir.
Qed.
End Resort.

Lemma sort_twice_more_restores_witness :
  tBody demo_page = Some [3; 0; 1; 2; 4; 5]%nat
  /\ NoDup [3; 0; 1; 2; 4; 5]%nat
  /\ exists p1 p2 p3,
       makeSortHandler (IdxInt 1) (lit "number") demo_page = Normal p1
       /\ makeSortHandler (IdxInt 1) (lit "number") p1 = Normal p2
       /\ makeSortHandler (IdxInt 1) (lit "number") p2 = Normal p3
       /\ data_sort_dir p2 <> data_sort_dir p1
       /\ p3 = p1.
Proof.
  assert (Hb : tBody demo_page = Some [3; 0; 1; 2; 4; 5]%nat) by reflexivity.
  assert (Hnd : NoDup [3; 0; 1; 2; 4; 5]%nat)
    by (apply (bool_decide_unpack _); vm_compute; exact I).
  split; [exact Hb|]. split; [exact Hnd|].
  exact (sort_twice_more_restores (IdxInt 1) (lit "number") demo_page
           [3; 0; 1; 2; 4; 5]%nat Hb Hnd).
Defined.

(** The claim as the specification words it makes an even number of toggles
    and the absence of another sort necessary for the order to come back.
    On [ordered_page] the order comes back after one sort on the second
    column, after two sorts on the first column (one reversal of direction),
    and after sorts on the second, the first and the second column again. *)
Lemma order_returns_otherwise :
  (order_after [(IdxInt 1, lit "number")] ordered_page = tBody ordered_page
   /\ Nat.even (length [(IdxInt 1, lit "number")]) = false)
  /\ (order_after [(IdxInt 0, lit "string"); (IdxInt 0, lit "string")] ordered_page
      = tBody ordered_page
      /\ direction_after [(IdxInt 0, lit "string")] ordered_page = Some (lit "asc")
      /\ direction_after [(IdxInt 0, lit "string"); (IdxInt 0, lit "string")]
           ordered_page = Some (lit "desc"))
  /\ (order_after [(IdxInt 1, lit "number"); (IdxInt 0, lit "string");
                   (IdxInt 1, lit "number")] ordered_page
      = tBody ordered_page
      /\ IdxInt 0 <> IdxInt 1).
Proof. repeat split; try (vm_compute; reflexivity). discriminate. Qed.

(** ** Least keys *)



(** ** What filtering and sorting leave alone *)

Section Frame.
Context `{Engine}.

(** C5: the filter listener changes nothing but the display of the nodes:
    the body, its child order and the sort attributes are as before and every
    node keeps its kind, its text and its cells; the sort handler leaves the
    node store as it is, so texts, cells and display styles are unchanged,
    and the children of the body after it are the children before it in
    another order. *)
Theorem handlers_keep_rows (items : list nat) (value : jsstring)
  (index : jsindex) (type : jsstring) (p : page) :
  (let p' := filterHandler items value p in
   tBody p' = tBody p
   /\ data_sort_col p' = data_sort_col p
   /\ data_sort_dir p' = data_sort_dir p
   /\ headers p' = headers p
   /\ forall id,
        match nodes p !! id with
        | Some e =>
            exists e', nodes p' !! id = Some e'
              /\ isTr e' = isTr e
              /\ textContent e' = textContent e
              /\ cells e' = cells e
              /\ (id ∉ items -> e' = e)
        | None => nodes p' !! id = None
        end)
  /\ exists p',
       makeSortHandler index type p = Normal p'
       /\ nodes p' = nodes p
       /\ headers p' = headers p
       /\ match tBody p with
          | Some children =>
              exists children', tBody p' = Some children'
                /\ (NoDup children -> Permutation children' children)
          | None => tBody p' = None
          end.
Proof.
  split.
  - cbv zeta. repeat split; try done.
    intros id. rewrite filterHandler_lookup.
    destruct (nodes p !! id) as [e|] eqn:He.
    + case_decide as Hin; simpl.
      * eexists. by repeat split.
      * exists e. by repeat split.
    + by case_decide.
  - destruct (tBody p) as [children|] eqn:Hb.
    + eexists. split; [by apply makeSortHandler_body|].
      cbn [nodes headers tBody]. repeat split.
      eexists. split; [done|]. intros Hnd.
      rewrite (reattach_sorted _ _ _ _ _ Hnd).
      apply (reattach_perm (fun c => isTr (nodes p !!! c))), sorted_rows_perm.
    + exists p. unfold makeSortHandler. by rewrite Hb.
Qed.
End Frame.

Lemma handlers_keep_rows_witness :
  NoDup [3; 0; 1; 2; 4; 5]%nat
  /\ exists p' children',
       makeSortHandler (IdxInt 1) (lit "number") demo_page = Normal p'
       /\ nodes p' = nodes demo_page
       /\ tBody p' = Some children'
       /\ Permutation children' [3; 0; 1; 2; 4; 5]%nat.
Proof.
  assert (Hnd : NoDup [3; 0; 1; 2; 4; 5]%nat)
    by (apply (bool_decide_unpack _); vm_compute; exact I).
  split; [exact Hnd|].
  destruct (proj2 (handlers_keep_rows [0; 1; 2]%nat (lit "ph") (IdxInt 1)
                     (lit "number") demo_page))
    as (p' & Hrun & Hnodes & _ & children' & Hbody & Hperm).
  exists p', children'. repeat split; [exact Hrun | exact Hnodes | exact Hbody |].
  exact (Hperm Hnd).
Defined.

(** ** Chart mounting *)

Lemma lookup_map {A B} (f : A -> B) (l : list A) (i : nat) :
  List.map f l !! i = f <$> l !! i.
Proof.
  revert i. induction l as [|x l IH]; intros [|i]; simpl; try done.
Qed.

Section ChartFacts.
Context `{Engine} `{ChartLibrary}.

Lemma parse_fails_throws querySelector c :
  parse_fails querySelector c ->
  exists msg, readConfig querySelector (data_chart_config c) = Throw msg.
Proof.
  unfold parse_fails, readConfig.
  destruct (data_chart_config c) as [[|ch a]|]; try done.
  destruct (startsWith _ _).
  - intros ->. eauto.
  - destruct (querySelector (ch :: a)); try done. intros ->. eauto.
Qed.

Lemma configOf_parse_fails querySelector c :
  parse_fails querySelector c -> configOf querySelector c = (DefaultLineChart, true).
Proof.
  intros Hf. destruct (parse_fails_throws _ _ Hf) as [msg Hmsg].
  unfold configOf. by rewrite Hmsg.
Qed.

Lemma configOf_warn querySelector c :
  snd (configOf querySelector c) = true
  <-> exists msg, readConfig querySelector (data_chart_config c) = Throw msg.
Proof.
  unfold configOf.
  destruct (readConfig querySelector (data_chart_config c)) as [[v|]|msg].
  - destruct (truthy v); cbn [snd]; split; [done | by intros [? ?] | done | by intros [? ?]].
  - cbn [snd]. split; [done | by intros [? ?]].
  - cbn [snd]. split; eauto.
Qed.

Lemma configOf_cfg querySelector c :
  match fst (configOf querySelector c) with
  | ParsedConfig v =>
      truthy v = true
      /\ readConfig querySelector (data_chart_config c) = Normal (Some v)
  | DefaultLineChart =>
      forall v, readConfig querySelector (data_chart_config c) = Normal (Some v) ->
                truthy v = false
  end.
Proof.
  unfold configOf.
  destruct (readConfig querySelector (data_chart_config c)) as [[v|]|msg].
  - destruct (truthy v) eqn:Hv; cbn [fst]; [done|]. by intros v' [= <-].
  - done.
  - done.
Qed.

Lemma mountOne_eq querySelector i c :
  mountOne querySelector i c
  = (snd (configOf querySelector c),
     if has_getContext c
     then (_ <- newChart i (fst (configOf querySelector c)) ;;
           Normal (fst (configOf querySelector c)))
     else Throw "TypeError: canvas.getContext is not a function").
Proof. unfold mountOne. by destruct (configOf querySelector c). Qed.

Lemma mountOne_normal querySelector i c cfg :
  snd (mountOne querySelector i c) = Normal cfg ->
  cfg = fst (configOf querySelector c)
  /\ has_getContext c = true
  /\ newChart i cfg = Normal tt.
Proof.
  rewrite mountOne_eq. cbn [snd].
  destruct (has_getContext c); [|done].
  destruct (newChart i (fst (configOf querySelector c))) as [[]|msg] eqn:Hn; [|done].
  cbn. intros [= <-]. done.
Qed.

Lemma mountOne_throw querySelector i c msg :
  snd (mountOne querySelector i c) = Throw msg ->
  has_getContext c = false
  \/ newChart i (fst (configOf querySelector c)) = Throw msg.
Proof.
  rewrite mountOne_eq. cbn [snd].
  destruct (has_getContext c); [|by left].
  destruct (newChart i (fst (configOf querySelector c))) as [[]|msg'] eqn:Hn; [done|].
  cbn. intros [= <-]. by right.
Qed.

(** What [forEach] leaves, read backwards: every chart and every warning
    belongs to the canvas at its position, and the exception, if any, is the
    one of the first canvas without a chart. *)
Lemma mountEach_spec querySelector canvases : forall k cs ws t,
  mountEach querySelector k canvases = (cs, ws, t) ->
  (forall i cfg, cs !! i = Some cfg ->
     exists c, canvases !! i = Some c
       /\ snd (mountOne querySelector (k + i) c) = Normal cfg)
  /\ (forall i w, ws !! i = Some w ->
        exists c, canvases !! i = Some c
          /\ fst (mountOne querySelector (k + i) c) = w)
  /\ match t with
     | None => length cs = length canvases /\ length ws = length canvases
     | Some msg =>
         length ws = S (length cs)
         /\ exists c, canvases !! length cs = Some c
              /\ snd (mountOne querySelector (k + length cs) c) = Throw msg
     end.
Proof.
  induction canvases as [|c rest IH]; intros k cs ws t.
  - intros [= <- <- <-]. by repeat split.
  - cbn [mountEach].
    destruct (mountOne querySelector k c) as [warn [cfg|msg]] eqn:H1.
    + destruct (mountEach querySelector (S k) rest) as [[cs' ws'] t'] eqn:Hrest.
      intros [= <- <- <-].
      destruct (IH _ _ _ _ Hrest) as (IHc & IHw & IHt).
      split; [|split].
      * intros [|i] cfg' Hi.
        -- injection Hi as <-. exists c. split; [done|].
           rewrite Nat.add_0_r, H1. done.
        -- destruct (IHc i cfg' Hi) as (c' & Hc' & Hm). exists c'.
           split; [done|]. by rewrite Nat.add_succ_r.
      * intros [|i] w Hi.
        -- injection Hi as <-. exists c. split; [done|].
           rewrite Nat.add_0_r, H1. done.
        -- destruct (IHw i w Hi) as (c' & Hc' & Hm). exists c'.
           split; [done|]. by rewrite Nat.add_succ_r.
      * destruct t' as [msg|].
        -- destruct IHt as (Hl & c' & Hc' & Hm). split; [by cbn; rewrite Hl|].
           exists c'. split; [done|]. cbn [length]. by rewrite Nat.add_succ_r.
        -- destruct IHt as [Hl1 Hl2]. by cbn; rewrite Hl1, Hl2.
    + intros [= <- <- <-]. split; [done|]. split.
      * intros [|i] w Hi; [|done]. injection Hi as <-. exists c.
        split; [done|]. rewrite Nat.add_0_r, H1. done.
      * split; [done|]. exists c. split; [done|].
        cbn [length]. rewrite Nat.add_0_r, H1. done.
Qed.

(** What [forEach] leaves, read forwards: a canvas before which no iteration
    threw is reached. *)
Lemma mountEach_reach querySelector canvases : forall k i c cs ws t,
  canvases !! i = Some c ->
  (forall j cj, (j < i)%nat -> canvases !! j = Some cj ->
     exists cfg, snd (mountOne querySelector (k + j) cj) = Normal cfg) ->
  mountEach querySelector k canvases = (cs, ws, t) ->
  ws !! i = Some (fst (mountOne querySelector (k + i) c))
  /\ match snd (mountOne querySelector (k + i) c) with
     | Normal cfg => cs !! i = Some cfg
     | Throw msg => t = Some msg /\ length cs = i
     end.
Proof.
  induction canvases as [|c0 rest IH]; intros k i c cs ws t Hi Hbefore; [done|].
  cbn [mountEach]. destruct i as [|i].
  - injection Hi as ->. rewrite Nat.add_0_r.
    destruct (mountOne querySelector k c) as [warn [cfg|msg]] eqn:H1.
    + destruct (mountEach querySelector (S k) rest) as [[cs' ws'] t'].
      by intros [= <- <- <-].
    + by intros [= <- <- <-].
  - destruct (Hbefore 0%nat c0) as [cfg0 Hfirst]; [lia | done |].
    rewrite Nat.add_0_r in Hfirst.
    destruct (mountOne querySelector k c0) as [warn [cfg|msg]] eqn:H1; [|done].
    destruct (mountEach querySelector (S k) rest) as [[cs' ws'] t'] eqn:Hrest.
    intros [= <- <- <-].
    destruct (IH (S k) i c cs' ws' t' Hi) as [Hw Hc]; [|done|].
    + intros j cj Hj Hcj. destruct (Hbefore (S j) cj) as [cfg' H']; [lia | done |].
      exists cfg'. by rewrite Nat.add_succ_r in H'.
    + rewrite Nat.add_succ_r. split; [done|].
      cbn [Nat.add] in Hc.
      destruct (snd (mountOne querySelector (S (k + i)) c)); [done|].
      destruct Hc as [-> <-]. done.
Qed.

Lemma contains_skeleton_added cl :
  contains (classList_add (lit "skeleton") cl) (lit "skeleton") = true.
Proof.
  unfold classList_add.
  destruct (contains cl (lit "skeleton")) eqn:Hc; [done|].
  unfold contains. rewrite existsb_app. cbn [existsb].
  rewrite str_eqb_refl. by rewrite orb_true_r.
Qed.

(** C4 (amended): when the charting library is present, the configuration
    of a canvas fails to parse as JSON, and no iteration on an earlier canvas
    threw, a warning is logged for the canvas, no canvas is marked as a
    placeholder, and [new Chart] is reached with the default line-chart
    configuration: the chart is constructed when the canvas has [getContext]
    and the constructor returns, otherwise mounting ends there with that
    exception.  The placeholder class is added, and no chart constructed,
    only when the library is absent. *)
Theorem bad_config_renders_default (querySelector : jsstring -> queryResult)
  (canvases : list canvas) (i : nat) (c : canvas) :
  canvases !! i = Some c ->
  parse_fails querySelector c ->
  (forall j cj, (j < i)%nat -> canvases !! j = Some cj ->
     exists cfg, snd (mountOne querySelector j cj) = Normal cfg) ->
  (let r := mountCharts true querySelector canvases in
   warned r !! i = Some true
   /\ canvases_after r = canvases
   /\ noted r = false
   /\ snd (mountOne querySelector i c)
      = (if has_getContext c
         then (_ <- newChart i DefaultLineChart ;; Normal DefaultLineChart)
         else Throw "TypeError: canvas.getContext is not a function")
   /\ (has_getContext c = true -> newChart i DefaultLineChart = Normal tt ->
       charts r !! i = Some DefaultLineChart)
   /\ (forall msg, snd (mountOne querySelector i c) = Throw msg ->
       thrown r = Some msg /\ length (charts r) = i))
  /\ (let r := mountCharts false querySelector canvases in
      charts r = []
      /\ thrown r = None
      /\ exists c', canvases_after r !! i = Some c'
           /\ contains (canvas_classList c') (lit "skeleton") = true).
Proof.
  intros Hi Hf Hbefore.
  assert (Hone : mountOne querySelector i c
                 = (true,
                    if has_getContext c
                    then (_ <- newChart i DefaultLineChart ;; Normal DefaultLineChart)
                    else Throw "TypeError: canvas.getContext is not a function")).
  { rewrite mountOne_eq, (configOf_parse_fails _ _ Hf). done. }
  unfold mountCharts. destruct canvases as [|c0 cs]; [done|].
  cbn [negb]. split.
  - destruct (mountEach querySelector 0 (c0 :: cs)) as [[chs ws] t] eqn:He.
    cbn [charts warned canvases_after noted thrown].
    destruct (mountEach_reach _ _ 0 i c chs ws t Hi Hbefore He) as [Hw Hc].
    cbn [Nat.add] in Hw, Hc. rewrite Hone in Hw. cbn [fst] in Hw.
    split; [done|]. split; [done|]. split; [done|].
    split; [by rewrite Hone|]. split.
    + intros Hg Hn. rewrite Hone in Hc. cbn [snd] in Hc.
      rewrite Hg, Hn in Hc. exact Hc.
    + intros msg Hm. rewrite Hm in Hc. done.
  - cbn [charts thrown canvases_after]. split; [done|]. split; [done|].
    rewrite lookup_map, Hi. cbn [fmap option_fmap option_map].
    eexists. split; [done|]. cbn [canvas_classList].
    apply contains_skeleton_added.
Qed.
End ChartFacts.

Lemma bad_config_renders_default_witness :
  [good_canvas; bad_canvas] !! 1%nat = Some bad_canvas
  /\ parse_fails (fun _ => QueryNull) bad_canvas
  /\ warned (mountCharts true (fun _ => QueryNull) [good_canvas; bad_canvas]) !! 1%nat
     = Some true
  /\ charts (mountCharts true (fun _ => QueryNull) [good_canvas; bad_canvas]) !! 1%nat
     = Some DefaultLineChart
  /\ canvases_after (mountCharts true (fun _ => QueryNull) [good_canvas; bad_canvas])
     = [good_canvas; bad_canvas].
Proof.
  assert (Hi : [good_canvas; bad_canvas] !! 1%nat = Some bad_canvas) by reflexivity.
  assert (Hf : parse_fails (fun _ => QueryNull) bad_canvas) by (vm_compute; reflexivity).
  assert (Hbefore : forall j cj, (j < 1)%nat -> [good_canvas; bad_canvas] !! j = Some cj ->
            exists cfg, snd (mountOne (fun _ => QueryNull) j cj) = Normal cfg).
  { intros [|j] cj Hj Hcj; [|lia]. injection Hcj as <-.
    eexists. vm_compute. reflexivity. }
  split; [exact Hi|]. split; [exact Hf|].
  destruct (proj1 (bad_config_renders_default (fun _ => QueryNull)
                     [good_canvas; bad_canvas] 1 bad_canvas Hi Hf Hbefore))
    as (Hw & Hc & _ & _ & Hch & _).
  split; [exact Hw|]. split; [|exact Hc].
  apply Hch; reflexivity.
Defined.

(** The library is present and the configuration "{oops" is not JSON: the
    canvas is not marked as a placeholder and a chart is constructed. *)
Lemma bad_config_is_rendered :
  JSON_parse (lit "{oops") = None
  /\ charts (mountCharts true (fun _ => QueryNull) [bad_canvas]) = [DefaultLineChart]
  /\ List.map (fun c => contains (canvas_classList c) (lit "skeleton"))
       (canvases_after (mountCharts true (fun _ => QueryNull) [bad_canvas]))
     = [false].
Proof. repeat split; vm_compute; reflexivity. Qed.

(** ** The copy helper *)

(** C8: whatever the text, the promise returned by [copyText] is fulfilled
    with [false] when the clipboard write is rejected (or cannot be started),
    and with [true] when it succeeds; it is never rejected, so no exception
    reaches the caller. *)
Theorem copyText_result (writeText : jsstring -> completion (promise unit))
  (text : jsstring) :
  copyText writeText text
  = match writeText text with
    | Normal (Fulfilled _) => Fulfilled true
    | Normal (Rejected _) => Fulfilled false
    | Throw _ => Fulfilled false
    | Normal Pending => Pending
    end
  /\ (forall reason, writeText text = Normal (Rejected reason) ->
        copyText writeText text = Fulfilled false)
  /\ (forall u, writeText text = Normal (Fulfilled u) ->
        copyText writeText text = Fulfilled true)
  /\ forall reason, copyText writeText text <> Rejected reason.
Proof.
  unfold copyText.
  repeat split; try (intros ? ->; reflexivity);
    destruct (writeText text) as [[u|e|]|e]; try done.
Qed.

Lemma copyText_result_witness :
  denied_clipboard (lit "+970") = Normal (Rejected "NotAllowedError")
  /\ copyText denied_clipboard (lit "+970") = Fulfilled false.
Proof.
  split; [reflexivity|].
  exact (proj1 (proj2 (copyText_result denied_clipboard (lit "+970")))
           "NotAllowedError"%string eq_refl).
Defined.

(** ** Modals *)

Lemma contains_add t cl : contains (classList_add t cl) t = true.
Proof.
  unfold classList_add. destruct (contains cl t) eqn:Hc; [done|].
  unfold contains. rewrite existsb_app. cbn [existsb].
  rewrite str_eqb_refl. by rewrite orb_true_r.
Qed.

Lemma contains_remove_other t u cl :
  t <> u -> contains (classList_remove u cl) t = contains cl t.
Proof.
  intros Hne. unfold contains, classList_remove.
  induction cl as [|c cl IH]; [done|].
  cbn [List.filter existsb].
  destruct (str_eqb c u) eqn:Hcu; cbn [negb existsb]; rewrite IH; [|done].
  apply str_eqb_eq in Hcu as ->.
  destruct (str_eqb t u) eqn:Htu; [|done].
  by apply str_eqb_eq in Htu.
Qed.

Lemma contains_remove t cl : contains (classList_remove t cl) t = false.
Proof.
  unfold contains, classList_remove.
  induction cl as [|c cl IH]; [done|].
  cbn [List.filter].
  destruct (str_eqb c t) eqn:Hct; cbn [negb existsb]; [done|].
  rewrite IH, orb_false_r.
  apply not_true_is_false. intros Htc%str_eqb_eq. subst c.
  by rewrite str_eqb_refl in Hct.
Qed.

(** C10: the Escape key and a click on the overlay only add the class
    'hidden' and leave [aria-hidden] as it is, whereas a close button also
    sets [aria-hidden] to 'true'; so a modal that was opened and is then
    dismissed by Escape or by a click on its overlay is hidden with
    [aria-hidden] still 'false'. *)
Theorem dismissal_keeps_aria_hidden (doc : gmap nat modalElement) (id : nat)
  (m : modalElement) :
  doc !! id = Some m ->
  (keydownHandler (lit "Escape") doc !! id
   = Some (if open_modal m then add_hidden m else m)
   /\ forall j, aria_hidden <$> keydownHandler (lit "Escape") doc !! j
                = aria_hidden <$> doc !! j)
  /\ (forall target,
        overlayClick id target doc !! id
        = Some (if Nat.eqb target id && contains (classList m) (lit "modal")
                then add_hidden m else m)
        /\ forall j, aria_hidden <$> overlayClick id target doc !! j
                     = aria_hidden <$> doc !! j)
  /\ modalCloseClick (Some id) doc !! id
     = Some {| classList := classList_add (lit "hidden") (classList m);
               aria_hidden := Some (lit "true") |}
  /\ (contains (classList m) (lit "modal") = true ->
      let opened := modalOpenClick (Some id) doc in
      forall doc',
        doc' = keydownHandler (lit "Escape") opened \/ doc' = overlayClick id id opened ->
        exists m', doc' !! id = Some m'
          /\ contains (classList m') (lit "hidden") = true
          /\ aria_hidden m' = Some (lit "false")).
Proof.
  intros Hm.
  assert (Hesc : forall d j,
    keydownHandler (lit "Escape") d !! j
    = (fun m => if open_modal m then add_hidden m else m) <$> d !! j).
  { intros d j. unfold keydownHandler. rewrite str_eqb_refl. apply lookup_fmap. }
  assert (Hover : forall d target j,
    aria_hidden <$> overlayClick id target d !! j = aria_hidden <$> d !! j).
  { intros d target j. unfold overlayClick. destruct (_ && _); [|done].
    rewrite lookup_alter. case_decide as Hj; [subst j|done].
    by destruct (d !! id). }
  split; [|split; [|split]].
  - split; [by rewrite Hesc, Hm|].
    intros j. rewrite Hesc. destruct (doc !! j) as [mj|]; [|done]. simpl.
    by destruct (open_modal mj).
  - intros target. split; [|by apply Hover].
    unfold overlayClick. rewrite (lookup_total_correct _ _ _ Hm).
    destruct (_ && _); [|done]. by rewrite lookup_alter_eq, Hm.
  - simpl. by rewrite lookup_alter_eq, Hm.
  - intros Hmodal opened doc' Hdoc'.
    assert (Hopen : opened !! id
      = Some {| classList := classList_remove (lit "hidden") (classList m);
                aria_hidden := Some (lit "false") |}).
    { unfold opened. simpl. by rewrite lookup_alter_eq, Hm. }
    assert (Hcl : contains (classList_remove (lit "hidden") (classList m)) (lit "modal")
                  = true).
    { rewrite contains_remove_other; [done|]. by intros [=]. }
    destruct Hdoc' as [-> | ->].
    + rewrite Hesc, Hopen. simpl. unfold open_modal. cbn [classList].
      rewrite Hcl, contains_remove. simpl.
      eexists. split; [done|]. split; [apply contains_add | done].
    + unfold overlayClick. rewrite (lookup_total_correct _ _ _ Hopen).
      cbn [classList]. rewrite Hcl, Nat.eqb_refl. simpl.
      rewrite lookup_alter_eq, Hopen. simpl.
      eexists. split; [done|]. split; [apply contains_add | done].
Qed.

Lemma dismissal_keeps_aria_hidden_witness :
  demo_doc !! 7%nat = Some (ModalElement [lit "modal"; lit "hidden"] (Some (lit "true")))
  /\ contains [lit "modal"; lit "hidden"] (lit "modal") = true
  /\ exists m',
       keydownHandler (lit "Escape") (modalOpenClick (Some 7%nat) demo_doc) !! 7%nat
       = Some m'
       /\ contains (classList m') (lit "hidden") = true
       /\ aria_hidden m' = Some (lit "false").
Proof.
  assert (Hm : demo_doc !! 7%nat
               = Some (ModalElement [lit "modal"; lit "hidden"] (Some (lit "true"))))
    by reflexivity.
  assert (Hc : contains [lit "modal"; lit "hidden"] (lit "modal") = true)
    by reflexivity.
  split; [exact Hm|]. split; [exact Hc|].
  exact (proj2 (proj2 (proj2
    (dismissal_keeps_aria_hidden demo_doc 7%nat _ Hm))) Hc _ (or_introl eq_refl)).
Defined.

(** ** More on the sort: order, stability, the comparator *)

Lemma SFleb_not_lt x y : SFleb x y = true -> SFltb y x = false.
Proof.
  unfold SFleb, SFltb. rewrite (SFcompare_antisym x y).
  by destruct (SFcompare x y) as [[]|].
Qed.

Lemma SFleb_both x y : x <> NaN -> y <> NaN -> SFleb x y && SFleb y x = SFeqb x y.
Proof.
  intros Hx Hy. unfold SFleb, SFeqb. rewrite (SFcompare_antisym x y).
  by destruct (SFcompare x y) as [[]|].
Qed.

Lemma str_le_both a b : negb (str_gtb a b) && negb (str_gtb b a) = str_eqb a b.
Proof.
  unfold str_gtb. rewrite (str_compare_antisym a b).
  destruct (str_compare a b) eqn:Hc; simpl.
  - apply str_compare_eq in Hc as ->. by rewrite str_eqb_refl.
  - symmetry. apply not_true_is_false. intros ->%str_eqb_eq.
    by rewrite str_compare_refl in Hc.
  - symmetry. apply not_true_is_false. intros ->%str_eqb_eq.
    by rewrite str_compare_refl in Hc.
Qed.

Lemma sorted_snoc {A} (le : A -> A -> bool) l x :
  sorted le l -> (forall y, In y l -> le y x = true) -> sorted le (l ++ [x]).
Proof.
  unfold sorted. induction l as [|a l IH]; simpl; intros Hs Hx.
  - repeat constructor.
  - apply StronglySorted_inv in Hs as [Hs Ha]. constructor; [apply IH; auto|].
    apply Forall_app. split; [done|]. constructor; [auto | constructor].
Qed.

Lemma sorted_rev {A} (le : A -> A -> bool) l :
  sorted le l -> sorted (fun a b => le b a) (rev l).
Proof.
  unfold sorted. induction l as [|a l IH]; simpl; intros Hs; [constructor|].
  apply StronglySorted_inv in Hs as [Hs Ha].
  apply sorted_snoc; [by apply IH|].
  intros y Hy%in_rev. rewrite Forall_forall in Ha. by apply Ha, list_elem_of_In.
Qed.

(** In a list without repetition, a test passed by one element at most
    selects a list that reads the same in both directions. *)
Lemma filter_at_most_one {A} (f : A -> bool) (l : list A) :
  NoDup l ->
  (forall x y, In x l -> In y l -> f x = true -> f y = true -> x = y) ->
  rev (List.filter f l) = List.filter f l.
Proof.
  induction l as [|a l IH]; intros Hnd Hone; [done|].
  apply NoDup_cons in Hnd as [Ha Hnd]. cbn [List.filter].
  destruct (f a) eqn:Hfa.
  - rewrite (filter_none f l); [done|].
    intros x Hx. apply not_true_is_false. intros Hfx.
    apply Ha, list_elem_of_In.
    by rewrite (Hone a x (or_introl eq_refl) (or_intror Hx) Hfa Hfx).
  - apply IH; [done|]. intros x y Hx Hy. apply Hone; by right.
Qed.

(** With keys that are all different, the descending sort is the ascending
    one read backwards. *)
Lemma isort_flip_rev {A} (le : A -> A -> bool) (l : list A) :
  (forall a b, le a b = true \/ le b a = true) ->
  (forall a b c, le a b = true -> le b c = true -> le a c = true) ->
  NoDup l ->
  (forall a b, In a l -> In b l -> tied le a b = true -> a = b) ->
  isort (fun a b => le b a) l = rev (isort le l).
Proof.
  intros Htot Htr Hnd Hdistinct.
  set (ge := fun a b => le b a).
  assert (Htot' : forall a b, ge a b = true \/ ge b a = true)
    by (intros a b; apply Htot).
  assert (Htr' : forall a b c, ge a b = true -> ge b c = true -> ge a c = true)
    by (intros a b c Hab Hbc; apply (Htr c b a); done).
  assert (Htied : forall a b, tied ge a b = tied le a b)
    by (intros a b; unfold tied, ge; apply andb_comm).
  apply (sorted_unique ge Htot').
  - by apply isort_sorted.
  - apply (sorted_rev le), isort_sorted; done.
  - intros z. rewrite (isort_tied ge Htr').
    rewrite List.filter_rev.
    rewrite (List.filter_ext _ _ (Htied z) (isort le l)).
    rewrite (isort_tied le Htr).
    rewrite (List.filter_ext _ _ (Htied z) l).
    symmetry. apply filter_at_most_one; [done|].
    intros x y Hx Hy Hzx Hzy. apply Hdistinct; [done | done |].
    unfold tied in *. apply andb_true_iff in Hzx as [Hzx Hxz].
    apply andb_true_iff in Hzy as [Hzy Hyz].
    by rewrite (Htr _ _ _ Hxz Hzy), (Htr _ _ _ Hyz Hzx).
Qed.

(** A list whose elements are all tied is left as it is. *)
Lemma isort_all_tied {A} (le : A -> A -> bool) (l : list A) :
  (forall a b, In a l -> In b l -> le a b = true) -> isort le l = l.
Proof.
  induction l as [|x l IH]; intros Hle; [done|].
  cbn [isort]. rewrite IH by (intros a b Ha Hb; apply Hle; by right).
  destruct l as [|y l]; [done|]. cbn [insert].
  by rewrite (Hle x y (or_introl eq_refl) (or_intror (or_introl eq_refl))).
Qed.

Section SortOrder.
Context `{Engine}.

Lemma text_key_eqb_sym type s t :
  key_eqb (text_key type t) (text_key type s) = key_eqb (text_key type s) (text_key type t).
Proof.
  unfold text_key. destruct (str_eqb type (lit "number")); simpl.
  - unfold SFeqb. rewrite (SFcompare_antisym (number_key s) (number_key t)).
    by destruct (SFcompare (number_key s) (number_key t)) as [[]|].
  - apply eq_true_iff_eq. rewrite !str_eqb_eq. split; congruence.
Qed.

Lemma text_key_eqb_refl type s : key_eqb (text_key type s) (text_key type s) = true.
Proof.
  unfold text_key. destruct (str_eqb type (lit "number")); simpl.
  - pose proof (number_key_not_nan s) as Hn.
    rewrite <- (SFleb_both _ _ Hn Hn).
    by destruct (SFleb_total _ _ Hn Hn) as [-> | ->].
  - apply str_eqb_refl.
Qed.

(** Of two keys that are not equal, exactly one is greater. *)
Lemma text_key_gtb_flip type s t :
  key_eqb (text_key type s) (text_key type t) = false ->
  key_gtb (text_key type t) (text_key type s)
  = negb (key_gtb (text_key type s) (text_key type t)).
Proof.
  unfold text_key. destruct (str_eqb type (lit "number")); simpl.
  - pose proof (number_key_not_nan s) as Hs. pose proof (number_key_not_nan t) as Ht.
    unfold SFeqb, SFltb.
    rewrite (SFcompare_antisym (number_key t) (number_key s)).
    destruct (SFcompare (number_key t) (number_key s)) as [[]|] eqn:Hc; try done.
    revert Hc.
    by destruct (number_key t) as [[]|[]| |[] mx ex],
                (number_key s) as [[]|[]| |[] my ey].
  - generalize (toLowerCase (trim s)) (toLowerCase (trim t)). intros u v.
    unfold str_gtb. rewrite (str_compare_antisym u v).
    destruct (str_compare u v) eqn:Hc; try done.
    apply str_compare_eq in Hc as ->. by rewrite str_eqb_refl.
Qed.

Lemma row_le_not_greater m index type a b :
  row_le m index type 1 a b = true ->
  key_gtb (row_key m index type a) (row_key m index type b) = false.
Proof.
  unfold row_le, row_key, text_key.
  destruct (str_eqb type (lit "number")).
  - rewrite key_le_asc_num by apply number_key_not_nan. apply SFleb_not_lt.
  - rewrite key_le_asc_str. intros Hn%negb_true_iff. exact Hn.
Qed.

Lemma row_tied_eq m index type dir a b :
  dir = 1 \/ dir = -1 ->
  tied (row_le m index type dir) a b
  = key_eqb (row_key m index type a) (row_key m index type b).
Proof.
  intros Hd. rewrite (row_tied_dir m index type 1 dir a b) by auto.
  unfold tied, row_le, row_key, text_key.
  destruct (str_eqb type (lit "number")).
  - rewrite !key_le_asc_num by apply number_key_not_nan.
    apply SFleb_both; apply number_key_not_nan.
  - rewrite !key_le_asc_str. apply str_le_both.
Qed.

(** The handler on a body without repeated nodes. *)
Lemma makeSortHandler_rows index type p children :
  tBody p = Some children ->
  NoDup children ->
  makeSortHandler index type p
  = Normal {| nodes := nodes p;
              tBody := Some (other_children (nodes p) children
                             ++ sorted_rows (nodes p) index type (sort_dir index p) children);
              data_sort_col := Some (String_of_index index);
              data_sort_dir := Some (if sort_dir index p =? 1 then lit "asc"
                                     else lit "desc");
              headers := headers p |}.
Proof.
  intros Hb Hnd. rewrite (makeSortHandler_body _ _ _ _ Hb).
  by rewrite (reattach_sorted _ _ _ _ _ Hnd).
Qed.

(** X1: on a table whose body has no repeated node, a click puts the
    non-row children of the body first and the rows behind them, the rows
    being the former rows in an order in which no row has a greater key than
    a later row (ascending) or a smaller key than a later row (descending). *)
Theorem sort_orders_rows (index : jsindex) (type : jsstring) (p : page)
  (children : list nat) :
  tBody p = Some children ->
  NoDup children ->
  exists p' rows',
    makeSortHandler index type p = Normal p'
    /\ tBody p' = Some (other_children (nodes p) children ++ rows')
    /\ Permutation rows' (tbody_rows (nodes p) children)
    /\ forall l1 a l2 b l3,
         rows' = l1 ++ a :: l2 ++ b :: l3 ->
         if sort_dir index p =? 1
         then key_gtb (row_key (nodes p) index type a) (row_key (nodes p) index type b)
              = false
         else key_gtb (row_key (nodes p) index type b) (row_key (nodes p) index type a)
              = false.
Proof.
  intros Hb Hnd. eexists _, _.
  split; [by apply makeSortHandler_rows|]. split; [done|].
  split; [apply sorted_rows_perm|].
  intros l1 a l2 b l3 Hrows.
  pose proof (sort_dir_cases index p) as Hd.
  assert (Hs : sorted (row_le (nodes p) index type (sort_dir index p))
                      (l1 ++ a :: l2 ++ b :: l3)).
  { rewrite <- Hrows. apply isort_sorted.
    - intros x y. by apply row_le_dir_total.
    - intros x y z. by apply row_le_dir_trans. }
  assert (Hab : row_le (nodes p) index type (sort_dir index p) a b = true).
  { apply (sorted_app_after _ _ _ _ Hs), in_or_app. right. by left. }
  destruct Hd as [Hd | Hd]; rewrite Hd in *; simpl.
  - by apply row_le_not_greater.
  - rewrite row_le_desc in Hab. by apply row_le_not_greater.
Qed.

(** X2: with the stable sort of the engine, the rows that have the same key
    as any given row keep their relative order through a click, in both
    directions. *)
Theorem sort_is_stable (index : jsindex) (type : jsstring) (p : page)
  (children : list nat) :
  tBody p = Some children ->
  NoDup children ->
  exists p' children',
    makeSortHandler index type p = Normal p'
    /\ tBody p' = Some children'
    /\ forall z,
         List.filter (fun r => key_eqb (row_key (nodes p) index type z)
                                       (row_key (nodes p) index type r))
                     (tbody_rows (nodes p') children')
         = List.filter (fun r => key_eqb (row_key (nodes p) index type z)
                                         (row_key (nodes p) index type r))
                       (tbody_rows (nodes p) children).
Proof.
  intros Hb Hnd. eexists _, _.
  split; [by apply makeSortHandler_rows|]. split; [done|].
  intros z. cbn [nodes]. rewrite tbody_rows_reattached.
  pose proof (sort_dir_cases index p) as Hd.
  rewrite <- !(List.filter_ext _ _ (fun r => row_tied_eq (nodes p) index type _ z r Hd)).
  apply isort_tied. intros a b c. by apply row_le_dir_trans.
Qed.

(** X3: the comparator given to the sort never throws, also for rows without
    a cell at the index, and is a consistent order: it returns 0, 1 or -1,
    0 on a row and itself, opposite values when its arguments are swapped,
    and it is transitive. *)
Theorem comparator_consistent (m : gmap nat element) (index : jsindex)
  (type : jsstring) (dir : Z) (a b c : nat) :
  dir = 1 \/ dir = -1 ->
  exists ab ba bc ac,
    compareRows m index type dir a b = Normal ab
    /\ compareRows m index type dir b a = Normal ba
    /\ compareRows m index type dir b c = Normal bc
    /\ compareRows m index type dir a c = Normal ac
    /\ compareRows m index type dir a a = Normal 0
    /\ (ab = 0 \/ ab = 1 \/ ab = -1)
    /\ ba = - ab
    /\ (ab <= 0 -> bc <= 0 -> ac <= 0).
Proof.
  intros Hd. eexists _, _, _, _.
  repeat (split; [apply compareRows_normal|]).
  split; [|split; [|split]].
  - rewrite compareRows_normal. unfold row_key. by rewrite text_key_eqb_refl.
  - destruct (key_eqb (row_key m index type a) (row_key m index type b)),
             (key_gtb (row_key m index type a) (row_key m index type b)),
             Hd as [-> | ->]; auto.
  - unfold row_key. rewrite (text_key_eqb_sym type).
    destruct (key_eqb (text_key type (cell_text (m !!! a) index)) _) eqn:He; [done|].
    rewrite (text_key_gtb_flip _ _ _ He).
    destruct (key_gtb _ _); simpl; lia.
  - intros Hab Hbc.
    assert (Hle : forall x y,
      (if key_eqb (row_key m index type x) (row_key m index type y) then 0
       else if key_gtb (row_key m index type x) (row_key m index type y)
            then dir else - dir) <= 0 <->
      row_le m index type dir x y = true).
    { intros x y. unfold row_le, key_le.
      destruct (key_eqb (row_key m index type x) (row_key m index type y)); simpl;
        [split; [done | intros _; lia]|].
      symmetry. apply Z.leb_le. }
    apply Hle. apply (row_le_dir_trans m index type dir a b c Hd); by apply Hle.
Qed.

(** X4: when the rows of the body have keys that are all different, a second
    click on the same column leaves the rows in exactly the reverse of the
    order left by the first click. *)
Theorem second_click_reverses (index : jsindex) (type : jsstring) (p : page)
  (children : list nat) :
  tBody p = Some children ->
  NoDup children ->
  (forall a b, In a (tbody_rows (nodes p) children) ->
               In b (tbody_rows (nodes p) children) ->
               key_eqb (row_key (nodes p) index type a) (row_key (nodes p) index type b)
               = true -> a = b) ->
  exists p1 p2 rows1,
    makeSortHandler index type p = Normal p1
    /\ makeSortHandler index type p1 = Normal p2
    /\ tBody p1 = Some (other_children (nodes p) children ++ rows1)
    /\ tBody p2 = Some (other_children (nodes p) children ++ rev rows1).
Proof.
  intros Hb Hnd Hdistinct.
  set (m := nodes p). set (d := sort_dir index p).
  set (others := other_children m children).
  set (s1 := sorted_rows m index type d children).
  assert (Hd : d = 1 \/ d = -1) by apply sort_dir_cases.
  assert (Hperm : Permutation s1 (List.filter (fun c => isTr (m !!! c)) children))
    by apply sorted_rows_perm.
  assert (Ho : forall x, In x others -> isTr (m !!! x) = false).
  { intros x [_ Hx]%List.filter_In. by apply negb_true_iff. }
  assert (Hrow : forall x, In x s1 -> isTr (m !!! x) = true).
  { intros x Hx. apply (Permutation_in _ Hperm) in Hx.
    by apply List.filter_In in Hx as [_ ?]. }
  assert (Hnd1 : NoDup (others ++ s1)).
  { assert (Permutation (others ++ s1) children) as ->; [|done].
    apply (reattach_perm (fun c => isTr (m !!! c)) children s1 Hperm). }
  pose proof (makeSortHandler_rows index type p children Hb Hnd) as H1.
  fold m d others s1 in H1.
  pose proof (handler_step m index type (headers p) others s1
                (Some (String_of_index index))
                (Some (if d =? 1 then lit "asc" else lit "desc"))
                Hnd1 Ho Hrow) as H2.
  cbv zeta in H2. rewrite (sort_dir_after_sort _ _ _ _ d Hd) in H2.
  eexists _, _, s1. split; [exact H1|]. split; [exact H2|]. split; [done|].
  cbn [tBody]. do 2 f_equal.
  unfold s1, sorted_rows.
  assert (Hd' : - d = 1 \/ - d = -1) by lia.
  rewrite (isort_after (row_le m index type (- d)) (row_le m index type d)).
  - rewrite <- (isort_flip_rev (row_le m index type d)).
    + apply isort_ext. intros a b.
      destruct Hd as [Hd | Hd]; rewrite Hd; simpl.
      * apply row_le_desc.
      * by rewrite (row_le_desc m index type b a).
    + intros a b. by apply row_le_dir_total.
    + intros a b c. by apply row_le_dir_trans.
    + apply NoDup_ListNoDup, List.NoDup_filter. by apply NoDup_ListNoDup.
    + intros a b Ha Hb' Htied. apply Hdistinct; [done | done |].
      exact (eq_trans (eq_sym (row_tied_eq m index type d a b Hd)) Htied).
  - intros a b. by apply row_le_dir_total.
  - intros a b c. by apply row_le_dir_trans.
  - intros a b c. by apply row_le_dir_trans.
  - intros a b. by apply row_tied_dir.
Qed.
End SortOrder.

(** ** Missing cells, exceptions and tables without a body *)

Section MissingCells.
Context `{Engine}.






End MissingCells.


(** The row without an amount is first after the first click and last after
    the second, next to the row whose amount is not a number. *)
Example missing_cell_scenario :
  order_after [(IdxInt 1, lit "number")] demo_page = Some [3; 4; 5; 1; 0; 2]%nat
  /\ order_after [(IdxInt 1, lit "number"); (IdxInt 1, lit "number")] demo_page
     = Some [3; 2; 0; 1; 4; 5]%nat
  /\ compareRows (nodes demo_page) (IdxInt 1) (lit "number") 1 4%nat 5%nat = Normal 0
  /\ compareRows (nodes demo_page) (IdxInt 1) (lit "number") 1 4%nat 1%nat = Normal (-1).
Proof. repeat split; vm_compute; reflexivity. Qed.

Lemma sort_orders_rows_witness :
  tBody demo_page = Some [3; 0; 1; 2; 4; 5]%nat
  /\ NoDup [3; 0; 1; 2; 4; 5]%nat
  /\ exists p' rows',
       makeSortHandler (IdxInt 1) (lit "number") demo_page = Normal p'
       /\ tBody p' = Some (other_children (nodes demo_page) [3; 0; 1; 2; 4; 5]%nat
                           ++ rows')
       /\ Permutation rows' (tbody_rows (nodes demo_page) [3; 0; 1; 2; 4; 5]%nat).
Proof.
  assert (Hb : tBody demo_page = Some [3; 0; 1; 2; 4; 5]%nat) by reflexivity.
  assert (Hnd : NoDup [3; 0; 1; 2; 4; 5]%nat)
    by (apply (bool_decide_unpack _); vm_compute; exact I).
  split; [exact Hb|]. split; [exact Hnd|].
  destruct (sort_orders_rows (IdxInt 1) (lit "number") demo_page
              [3; 0; 1; 2; 4; 5]%nat Hb Hnd)
    as (p' & rows' & Hrun & Hbody & Hperm & _).
  exists p', rows'. repeat split; [exact Hrun | exact Hbody | exact Hperm].
Defined.

Lemma sort_is_stable_witness :
  tBody demo_page = Some [3; 0; 1; 2; 4; 5]%nat
  /\ NoDup [3; 0; 1; 2; 4; 5]%nat
  /\ exists p' children',
       makeSortHandler (IdxInt 1) (lit "number") demo_page = Normal p'
       /\ tBody p' = Some children'
       /\ forall z,
            List.filter
              (fun r => key_eqb (row_key (nodes demo_page) (IdxInt 1) (lit "number") z)
                                (row_key (nodes demo_page) (IdxInt 1) (lit "number") r))
              (tbody_rows (nodes p') children')
            = List.filter
                (fun r => key_eqb (row_key (nodes demo_page) (IdxInt 1) (lit "number") z)
                                  (row_key (nodes demo_page) (IdxInt 1) (lit "number") r))
                (tbody_rows (nodes demo_page) [3; 0; 1; 2; 4; 5]%nat).
Proof.
  assert (Hb : tBody demo_page = Some [3; 0; 1; 2; 4; 5]%nat) by reflexivity.
  assert (Hnd : NoDup [3; 0; 1; 2; 4; 5]%nat)
    by (apply (bool_decide_unpack _); vm_compute; exact I).
  split; [exact Hb|]. split; [exact Hnd|].
  exact (sort_is_stable (IdxInt 1) (lit "number") demo_page
           [3; 0; 1; 2; 4; 5]%nat Hb Hnd).
Defined.

Lemma comparator_consistent_witness :
  (1 = 1 \/ 1 = -1)
  /\ exists ab ba bc ac,
       compareRows (nodes demo_page) (IdxInt 1) (lit "number") 1 0%nat 1%nat = Normal ab
       /\ compareRows (nodes demo_page) (IdxInt 1) (lit "number") 1 1%nat 0%nat = Normal ba
       /\ compareRows (nodes demo_page) (IdxInt 1) (lit "number") 1 1%nat 4%nat = Normal bc
       /\ compareRows (nodes demo_page) (IdxInt 1) (lit "number") 1 0%nat 4%nat = Normal ac
       /\ compareRows (nodes demo_page) (IdxInt 1) (lit "number") 1 0%nat 0%nat = Normal 0
       /\ (ab = 0 \/ ab = 1 \/ ab = -1)
       /\ ba = - ab
       /\ (ab <= 0 -> bc <= 0 -> ac <= 0).
Proof.
  split; [left; reflexivity|].
  exact (comparator_consistent (nodes demo_page) (IdxInt 1) (lit "number") 1
           0%nat 1%nat 4%nat (or_introl eq_refl)).
Defined.

Lemma second_click_reverses_witness :
  tBody ordered_page = Some [0; 1; 2]%nat
  /\ NoDup [0; 1; 2]%nat
  /\ exists p1 p2 rows1,
       makeSortHandler (IdxInt 1) (lit "number") ordered_page = Normal p1
       /\ makeSortHandler (IdxInt 1) (lit "number") p1 = Normal p2
       /\ tBody p1 = Some (other_children (nodes ordered_page) [0; 1; 2]%nat ++ rows1)
       /\ tBody p2 = Some (other_children (nodes ordered_page) [0; 1; 2]%nat
                           ++ rev rows1).
Proof.
  assert (Hb : tBody ordered_page = Some [0; 1; 2]%nat) by reflexivity.
  assert (Hnd : NoDup [0; 1; 2]%nat)
    by (apply (bool_decide_unpack _); vm_compute; exact I).
  split; [exact Hb|]. split; [exact Hnd|].
  apply (second_click_reverses (IdxInt 1) (lit "number") ordered_page
           [0; 1; 2]%nat Hb Hnd).
  intros a b Ha Hb'.
  vm_compute in Ha. vm_compute in Hb'.
  destruct Ha as [<- | [<- | [<- | []]]], Hb' as [<- | [<- | [<- | []]]];
    vm_compute; intros Heq; (reflexivity || discriminate Heq).
Defined.

(** The scenario of the specification read backwards: with the amounts 5,
    30 and 100 the second click gives 100, 30, 5. *)
Example reverse_scenario :
  order_after [(IdxInt 1, lit "number"); (IdxInt 1, lit "number")] ordered_page
  = Some [2; 1; 0]%nat.
Proof. vm_compute. reflexivity. Qed.

(** ** Numeric cells and formatting characters *)

Lemma strip_trimStart s : strip (trimStart s) = strip s.
Proof.
  induction s as [|c s IH]; [done|].
  cbn [trimStart]. destruct (isWhiteSpace c) eqn:Hc; [|done].
  rewrite IH. unfold strip at 2. cbn [List.filter]. unfold stripped.
  by rewrite Hc, orb_true_r.
Qed.

Lemma strip_rev s : strip (rev s) = rev (strip s).
Proof. apply List.filter_rev. Qed.

(** Trimming is absorbed by the stripping of white space. *)
Lemma strip_trim s : strip (trim s) = strip s.
Proof.
  unfold trim, trimEnd.
  by rewrite strip_rev, strip_trimStart, strip_rev, rev_involutive, strip_trimStart.
Qed.

(** X5: the key of a numeric cell depends only on what is left of its text
    when commas, dollar signs, white space and percent signs are taken out:
    two texts that differ by such characters only, wherever they stand, have
    the same key, so adding one of them anywhere in a cell changes nothing. *)
Theorem number_key_ignores_format `{Engine} (t u : jsstring) :
  strip t = strip u ->
  parseCellValue (Cell t) (lit "number") = parseCellValue (Cell u) (lit "number")
  /\ forall pre c post,
       stripped c = true ->
       parseCellValue (Cell (pre ++ c :: post)) (lit "number")
       = parseCellValue (Cell (pre ++ post)) (lit "number").
Proof.
  intros Htu.
  assert (Hkey : forall x y, strip x = strip y ->
    parseCellValue (Cell x) (lit "number") = parseCellValue (Cell y) (lit "number")).
  { intros x y Hxy. unfold parseCellValue. rewrite number_type.
    by rewrite (strip_trim x), (strip_trim y), Hxy. }
  split; [by apply Hkey|].
  intros pre c post Hc. apply Hkey. unfold strip.
  rewrite !List.filter_app. cbn [List.filter]. by rewrite Hc.
Qed.

Lemma number_key_ignores_format_witness :
  strip (lit "$1,234 ") = strip (lit "1234")
  /\ parseCellValue (Cell (lit "$1,234 ")) (lit "number")
     = parseCellValue (Cell (lit "1234")) (lit "number").
Proof.
  assert (Hs : strip (lit "$1,234 ") = strip (lit "1234")) by reflexivity.
  split; [exact Hs|].
  exact (proj1 (number_key_ignores_format (lit "$1,234 ") (lit "1234") Hs)).
Defined.

(** ** Sorting on a column that the rows do not have *)

Section AbsentColumn.
Context `{Engine}.

(** X6: when no row of the body has a cell at the index of the header, as
    when the [data-sort] attribute is not a number and no cell has the [id]
    or the [name] 'NaN', a click does not throw and keeps the rows in their
    order (behind the other children of the body); the column and the
    direction are recorded all the same. *)
Theorem sort_on_absent_column (index : jsindex) (type : jsstring) (p : page)
  (children : list nat) :
  tBody p = Some children ->
  NoDup children ->
  (forall r, In r (tbody_rows (nodes p) children) ->
             cells_item (nodes p !!! r) index = Undefined) ->
  exists p',
    makeSortHandler index type p = Normal p'
    /\ tBody p' = Some (other_children (nodes p) children
                        ++ tbody_rows (nodes p) children)
    /\ nodes p' = nodes p
    /\ data_sort_col p' = Some (String_of_index index)
    /\ data_sort_dir p' = Some (if sort_dir index p =? 1 then lit "asc" else lit "desc").
Proof.
  intros Hb Hnd Hnone. eexists.
  split; [by apply makeSortHandler_rows|].
  cbn [tBody nodes data_sort_col data_sort_dir]. repeat split.
  do 2 f_equal. unfold sorted_rows. apply isort_all_tied.
  intros a b Ha Hb'. unfold row_le, row_key, cell_text.
  rewrite (Hnone a Ha), (Hnone b Hb'). unfold key_le.
  by rewrite text_key_eqb_refl.
Qed.
End AbsentColumn.

Lemma sort_on_absent_column_witness :
  tBody demo_page = Some [3; 0; 1; 2; 4; 5]%nat
  /\ NoDup [3; 0; 1; 2; 4; 5]%nat
  /\ exists p',
       makeSortHandler IdxNaN (lit "string") demo_page = Normal p'
       /\ tBody p' = Some (other_children (nodes demo_page) [3; 0; 1; 2; 4; 5]%nat
                           ++ tbody_rows (nodes demo_page) [3; 0; 1; 2; 4; 5]%nat)
       /\ nodes p' = nodes demo_page
       /\ data_sort_col p' = Some (String_of_index IdxNaN)
       /\ data_sort_dir p'
          = Some (if sort_dir IdxNaN demo_page =? 1 then lit "asc" else lit "desc").
Proof.
  assert (Hb : tBody demo_page = Some [3; 0; 1; 2; 4; 5]%nat) by reflexivity.
  assert (Hnd : NoDup [3; 0; 1; 2; 4; 5]%nat)
    by (apply (bool_decide_unpack _); vm_compute; exact I).
  split; [exact Hb|]. split; [exact Hnd|].
  apply (sort_on_absent_column IdxNaN (lit "string") demo_page
           [3; 0; 1; 2; 4; 5]%nat Hb Hnd).
  intros r Hr. vm_compute in Hr.
  destruct Hr as [<- | [<- | [<- | [<- | [<- | []]]]]]; reflexivity.
Defined.

(** With a header whose [data-sort] is not a number the rows are asked for
    the cell called 'NaN': a row has none unless a cell has that [id] or
    [name]; a position past the last cell gives no cell either. *)
Example cell_by_name :
  let row := Element true (lit "Acme 30")
               [TableCell (lit "Acme") None None;
                TableCell (lit "30") (Some (lit "NaN")) None] [] in
  cells_item row IdxNaN = Cell (lit "30")
  /\ cells_item row (IdxInt (-1)) = Undefined
  /\ cells_item row (IdxInt 1) = Cell (lit "30")
  /\ cells_item row (IdxInt 2) = Undefined.
Proof. repeat split; vm_compute; reflexivity. Qed.

(** ** More on the filter *)

Lemma trimStart_blank s :
  (forall c, In c s -> isWhiteSpace c = true) -> trimStart s = [].
Proof.
  induction s as [|c s IH]; intros Hs; [done|].
  cbn [trimStart]. rewrite (Hs c) by (by left). apply IH. intros d Hd. apply Hs. by right.
Qed.

Lemma trim_blank s :
  (forall c, In c s -> isWhiteSpace c = true) -> trim s = [].
Proof. intros Hs. unfold trim, trimEnd. by rewrite (trimStart_blank s Hs). Qed.

Section FilterMore.
Context `{Engine}.

(** X7: a query that is empty or made of white space only shows every
    captured row again, whatever a former query had hidden. *)
Theorem blank_query_shows_all (items : list nat) (value : jsstring) (p : page)
  (id : nat) (e : element) :
  (forall c, In c value -> isWhiteSpace c = true) ->
  id ∈ items ->
  nodes p !! id = Some e ->
  nodes (filterHandler items value p) !! id = Some (set_display [] e)
  /\ visible_rows items (filterHandler items value p) = items.
Proof.
  intros Hblank Hin He.
  assert (Hq : toLowerCase (trim value) = []).
  { rewrite (trim_blank value Hblank). apply toLowerCase_empty. }
  split.
  - rewrite filterHandler_lookup, decide_True, He by done. simpl.
    unfold filter_display. by rewrite Hq.
  - unfold visible_rows. apply filter_all. intros it Hit.
    rewrite lookup_total_alt, filterHandler_lookup.
    rewrite decide_True by (by apply list_elem_of_In).
    destruct (nodes p !! it) as [e'|] eqn:He'; [|done].
    cbn [fmap option_fmap option_map default]. unfold filter_display.
    by rewrite Hq.
Qed.

(** X8: the outcome of the filter depends on the last query only: a run of
    the listener after another one leaves the page that it leaves when run
    alone. *)
Theorem last_query_wins (items : list nat) (first second : jsstring) (p : page) :
  filterHandler items second (filterHandler items first p)
  = filterHandler items second p.
Proof.
  unfold filterHandler at 1 3. simpl. unfold set_nodes. simpl. f_equal.
  apply map_eq. intros id.
  rewrite !filter_nodes_lookup.
  case_decide; [|done].
  destruct (nodes p !! id) as [e|]; simpl; [|done].
  by rewrite filter_display_set.
Qed.

Lemma filterHandler_total items value p a :
  isTr (nodes (filterHandler items value p) !!! a) = isTr (nodes p !!! a)
  /\ cells (nodes (filterHandler items value p) !!! a) = cells (nodes p !!! a).
Proof.
  rewrite !lookup_total_alt, filterHandler_lookup.
  case_decide; [|done]. by destruct (nodes p !! a).
Qed.

(** X9: when the target of the filter is the body of the table, so that
    the items captured are children of the body, the sort takes no account
    of what the filter has hidden: hidden rows are sorted with the others,
    and filtering then sorting leaves the page that sorting then filtering
    leaves.  (The text of a child of the body does not depend on the order
    of the rows; the text of the body or of the table does, and a filter on
    such items is left out.) *)
Theorem filter_and_sort_commute (items : list nat) (value : jsstring)
  (index : jsindex) (type : jsstring) (p : page) (body : list nat) :
  tBody p = Some body ->
  (forall it, In it items -> In it body) ->
  exists p',
    makeSortHandler index type p = Normal p'
    /\ makeSortHandler index type (filterHandler items value p)
       = Normal (filterHandler items value p').
Proof.
  intros Hb _.
  eexists. split; [by apply makeSortHandler_body|].
  rewrite (makeSortHandler_body index type (filterHandler items value p) body Hb).
  change (sort_dir index (filterHandler items value p)) with (sort_dir index p).
  assert (Hrows :
    sorted_rows (nodes (filterHandler items value p)) index type
      (sort_dir index p) body
    = sorted_rows (nodes p) index type (sort_dir index p) body).
  { unfold sorted_rows, tbody_rows.
    rewrite (List.filter_ext
               (fun c => isTr (nodes (filterHandler items value p) !!! c))
               (fun c => isTr (nodes p !!! c)))
      by (intros a; apply filterHandler_total).
    apply isort_ext. intros a b. unfold row_le, row_key, cell_text, cells_item.
    by rewrite !(proj2 (filterHandler_total items value p _)). }
  rewrite Hrows. reflexivity.
Qed.
End FilterMore.

Lemma filter_and_sort_commute_witness :
  tBody demo_page = Some [3; 0; 1; 2; 4; 5]%nat
  /\ (forall it, In it [0; 1; 2]%nat -> In it [3; 0; 1; 2; 4; 5]%nat)
  /\ exists p',
       makeSortHandler (IdxInt 1) (lit "number") demo_page = Normal p'
       /\ makeSortHandler (IdxInt 1) (lit "number")
            (filterHandler [0; 1; 2]%nat (lit "ph") demo_page)
          = Normal (filterHandler [0; 1; 2]%nat (lit "ph") p').
Proof.
  assert (Hb : tBody demo_page = Some [3; 0; 1; 2; 4; 5]%nat) by reflexivity.
  assert (Hitems : forall it, In it [0; 1; 2]%nat -> In it [3; 0; 1; 2; 4; 5]%nat).
  { intros it Hit. simpl in Hit. simpl. tauto. }
  split; [exact Hb|]. split; [exact Hitems|].
  exact (filter_and_sort_commute [0; 1; 2]%nat (lit "ph") (IdxInt 1) (lit "number")
           demo_page [3; 0; 1; 2; 4; 5]%nat Hb Hitems).
Defined.

Lemma blank_query_shows_all_witness :
  (forall c, In c (lit "  ") -> isWhiteSpace c = true)
  /\ 1%nat ∈ [0; 1; 2]%nat
  /\ nodes (filterHandler [0; 1; 2]%nat (lit "ph") demo_page) !! 1%nat
     = Some (set_display (lit "none") (demo_row ["Other"; "5"]%string))
  /\ nodes (filterHandler [0; 1; 2]%nat (lit "  ")
              (filterHandler [0; 1; 2]%nat (lit "ph") demo_page)) !! 1%nat
     = Some (set_display [] (set_display (lit "none") (demo_row ["Other"; "5"]%string))).
Proof.
  assert (Hblank : forall c, In c (lit "  ") -> isWhiteSpace c = true).
  { intros c Hc. vm_compute in Hc. by destruct Hc as [<- | [<- | []]]. }
  assert (Hin : 1%nat ∈ [0; 1; 2]%nat) by (apply list_elem_of_In; simpl; auto).
  assert (He : nodes (filterHandler [0; 1; 2]%nat (lit "ph") demo_page) !! 1%nat
               = Some (set_display (lit "none") (demo_row ["Other"; "5"]%string)))
    by (vm_compute; reflexivity).
  split; [exact Hblank|]. split; [exact Hin|]. split; [exact He|].
  exact (proj1 (blank_query_shows_all [0; 1; 2]%nat (lit "  ")
                  (filterHandler [0; 1; 2]%nat (lit "ph") demo_page) 1%nat _
                  Hblank Hin He)).
Defined.

(** ** Class lists *)

Lemma contains_add_other t u cl :
  t <> u -> contains (classList_add u cl) t = contains cl t.
Proof.
  intros Hne. unfold classList_add. destruct (contains cl u); [done|].
  unfold contains. rewrite existsb_app. cbn [existsb].
  replace (str_eqb t u) with false; [by rewrite !orb_false_r|].
  symmetry. apply not_true_is_false. by intros ?%str_eqb_eq.
Qed.

Lemma classList_add_idem t cl : classList_add t (classList_add t cl) = classList_add t cl.
Proof. unfold classList_add at 1. by rewrite contains_add. Qed.

Lemma classList_remove_absent t cl :
  contains cl t = false -> classList_remove t cl = cl.
Proof.
  unfold contains, classList_remove. induction cl as [|c cl IH]; [done|].
  cbn [existsb List.filter]. intros [Hc Hcl]%orb_false_iff.
  replace (str_eqb c t) with false.
  - simpl. f_equal. by apply IH.
  - symmetry. apply not_true_is_false. intros ->%str_eqb_eq.
    by rewrite str_eqb_refl in Hc.
Qed.

Lemma classList_remove_add t cl :
  contains cl t = false -> classList_remove t (classList_add t cl) = cl.
Proof.
  intros Hc. unfold classList_add. rewrite Hc. unfold classList_remove.
  rewrite List.filter_app. cbn [List.filter]. rewrite str_eqb_refl. cbn [negb].
  rewrite app_nil_r. by apply classList_remove_absent.
Qed.

Lemma contains_toggle t cl :
  contains (fst (classList_toggle t cl)) t = negb (contains cl t).
Proof.
  unfold classList_toggle. destruct (contains cl t) eqn:Hc; cbn [fst negb].
  - apply contains_remove.
  - unfold contains in *. rewrite existsb_app, Hc. cbn [existsb].
    by rewrite str_eqb_refl.
Qed.

Lemma contains_toggle_other t u cl :
  t <> u -> contains (fst (classList_toggle u cl)) t = contains cl t.
Proof.
  intros Hne. unfold classList_toggle. destruct (contains cl u); cbn [fst].
  - by apply contains_remove_other.
  - unfold contains. rewrite existsb_app. cbn [existsb].
    replace (str_eqb t u) with false; [by rewrite !orb_false_r|].
    symmetry. apply not_true_is_false. by intros ?%str_eqb_eq.
Qed.

Lemma snd_toggle t cl : snd (classList_toggle t cl) = negb (contains cl t).
Proof. unfold classList_toggle. by destruct (contains cl t). Qed.

(** ** More on the charts *)

Section ChartsMore.
Context `{Engine} `{ChartLibrary}.

(** X10: without the charting library every canvas gets the class
    'skeleton' once, keeps its other classes and its configuration, no chart
    is constructed and the note is printed; a second call, which the public
    API allows, changes nothing more.  With no canvas on the page nothing is
    done and nothing printed, whether the library is there or not. *)
Theorem placeholders_without_library (hasChart : bool)
  (querySelector : jsstring -> queryResult) (c0 : canvas) (cs : list canvas) :
  let r := mountCharts false querySelector (c0 :: cs) in
  charts r = []
  /\ noted r = true
  /\ thrown r = None
  /\ length (canvases_after r) = length (c0 :: cs)
  /\ (forall i c, (c0 :: cs) !! i = Some c ->
        exists c', canvases_after r !! i = Some c'
          /\ contains (canvas_classList c') (lit "skeleton") = true
          /\ data_chart_config c' = data_chart_config c
          /\ has_getContext c' = has_getContext c
          /\ forall t, t <> lit "skeleton" ->
               contains (canvas_classList c') t = contains (canvas_classList c) t)
  /\ canvases_after (mountCharts false querySelector (canvases_after r))
     = canvases_after r
  /\ mountCharts hasChart querySelector [] = Mounted [] [] [] false None.
Proof.
  cbv zeta. unfold mountCharts at 1 2 3 4 5 7.
  cbn [negb charts noted thrown canvases_after].
  split; [done|]. split; [done|]. split; [done|]. split; [by rewrite length_map|].
  split; [|split; [|done]].
  - intros i c Hi. rewrite lookup_map, Hi. eexists. split; [done|].
    cbn [canvas_classList data_chart_config has_getContext].
    split; [apply contains_add|]. split; [done|]. split; [done|].
    intros t Ht. by apply contains_add_other.
  - cbn [List.map]. unfold mountCharts. cbn [negb canvases_after List.map].
    cbn [canvas_classList data_chart_config has_getContext].
    rewrite classList_add_idem. f_equal.
    rewrite List.map_map. apply List.map_ext. intros c.
    cbn [canvas_classList data_chart_config has_getContext].
    by rewrite classList_add_idem.
Qed.

(** X11: with the charting library the canvases are taken in order, no
    canvas is modified and no note printed.  Every chart constructed belongs
    to the canvas at its position, which has [getContext] and on which the
    constructor returned; it gets a parsed configuration only when reading it
    succeeded with a truthy value, and the default line chart in every other
    case.  A warning is logged for a canvas reached exactly when reading its
    configuration threw.  Mounting ends with an exception at the first canvas
    that has no [getContext] or on which the constructor throws: that canvas
    and the later ones get no chart.  When every element has [getContext]
    and the constructor always returns, each canvas gets exactly one chart. *)
Theorem charts_follow_config (querySelector : jsstring -> queryResult)
  (canvases : list canvas) :
  let r := mountCharts true querySelector canvases in
  canvases_after r = canvases
  /\ noted r = false
  /\ (forall i cfg, charts r !! i = Some cfg ->
        exists c, canvases !! i = Some c
          /\ has_getContext c = true
          /\ newChart i cfg = Normal tt
          /\ match cfg with
             | ParsedConfig v =>
                 truthy v = true
                 /\ readConfig querySelector (data_chart_config c) = Normal (Some v)
             | DefaultLineChart =>
                 forall v,
                   readConfig querySelector (data_chart_config c) = Normal (Some v) ->
                   truthy v = false
             end)
  /\ (forall i w, warned r !! i = Some w ->
        exists c, canvases !! i = Some c
          /\ (w = true <->
              exists msg, readConfig querySelector (data_chart_config c) = Throw msg))
  /\ match thrown r with
     | None =>
         length (charts r) = length canvases /\ length (warned r) = length canvases
     | Some msg =>
         length (warned r) = S (length (charts r))
         /\ exists c, canvases !! length (charts r) = Some c
              /\ (has_getContext c = false
                  \/ exists cfg, newChart (length (charts r)) cfg = Throw msg)
     end
  /\ ((forall i c, canvases !! i = Some c ->
         has_getContext c = true /\ forall cfg, newChart i cfg = Normal tt) ->
      thrown r = None /\ length (charts r) = length canvases).
Proof.
  cbv zeta. destruct canvases as [|c0 cs]; [by repeat split|].
  unfold mountCharts. cbn [negb].
  destruct (mountEach querySelector 0 (c0 :: cs)) as [[chs ws] t] eqn:He.
  cbn [charts warned noted thrown canvases_after].
  destruct (mountEach_spec _ _ _ _ _ _ He) as (Hc & Hw & Ht).
  split; [done|]. split; [done|].
  assert (Hthrown : match t with
     | None => length chs = length (c0 :: cs) /\ length ws = length (c0 :: cs)
     | Some msg =>
         length ws = S (length chs)
         /\ exists c, (c0 :: cs) !! length chs = Some c
              /\ (has_getContext c = false
                  \/ exists cfg, newChart (length chs) cfg = Throw msg)
     end).
  { destruct t as [msg|]; [|done]. destruct Ht as (Hl & c & Hcl & Hm).
    split; [done|]. exists c. split; [done|]. cbn [Nat.add] in Hm.
    destruct (mountOne_throw _ _ _ _ Hm) as [Hg | Hn]; [by left | right; eauto]. }
  split; [|split; [|split; [exact Hthrown|]]].
  - intros i cfg Hi. destruct (Hc i cfg Hi) as (c & Hci & Hm). cbn [Nat.add] in Hm.
    destruct (mountOne_normal _ _ _ _ Hm) as (-> & Hg & Hn).
    exists c. split; [done|]. split; [done|]. split; [done|]. apply configOf_cfg.
  - intros i w Hi. destruct (Hw i w Hi) as (c & Hci & Hm). exists c.
    split; [done|]. rewrite mountOne_eq in Hm. cbn [fst] in Hm. subst w.
    apply configOf_warn.
  - intros Hall. destruct t as [msg|]; [|by destruct Hthrown].
    destruct Hthrown as (_ & c & Hcl & Hbad). destruct (Hall _ _ Hcl) as [Hg Hn].
    destruct Hbad as [Hb | [cfg Hb]]; [congruence|]. rewrite Hn in Hb. done.
Qed.
End ChartsMore.

(** A valid inline configuration is handed to the chart as parsed. *)
Example inline_config_is_used :
  charts (mountCharts true (fun _ => QueryNull) [good_canvas; plain_canvas; bad_canvas])
  = [ParsedConfig (JObject [([97%N], JNumber (S754_finite false 4503599627370496 (-52)))]);
     DefaultLineChart; DefaultLineChart]
  /\ warned (mountCharts true (fun _ => QueryNull) [good_canvas; plain_canvas; bad_canvas])
     = [false; false; true]
  /\ thrown (mountCharts true (fun _ => QueryNull) [good_canvas; plain_canvas; bad_canvas])
     = None.
Proof. repeat split; vm_compute; reflexivity. Qed.

(** An element of class [chart-canvas] that is not a [<canvas>] ends
    mounting: the canvases behind it get no chart. *)
Example div_ends_mounting :
  let r := mountCharts true (fun _ => QueryNull) [good_canvas; div_canvas; bad_canvas] in
  length (charts r) = 1%nat
  /\ warned r = [false; false]
  /\ thrown r = Some "TypeError: canvas.getContext is not a function"%string.
Proof. repeat split; vm_compute; reflexivity. Qed.

(** A constructor that throws ends mounting at the first canvas, after the
    warning for its configuration. *)
Example constructor_ends_mounting :
  let r := @mountCharts _ failing_charts true (fun _ => QueryNull)
             [bad_canvas; good_canvas] in
  charts r = [] /\ warned r = [true]
  /\ thrown r = Some "Error: Canvas is already in use"%string.
Proof. repeat split; vm_compute; reflexivity. Qed.

(** ** More on the modals *)

Lemma open_modal_add_hidden m : open_modal (add_hidden m) = false.
Proof.
  unfold open_modal, add_hidden. cbn [classList].
  by rewrite contains_add, andb_false_r.
Qed.

(** X12: after the Escape key no element of the document is an open modal
    any more, and the elements that were not open modals are as before; any
    other key leaves the document as it is. *)
Theorem escape_closes_every_modal (k : jsstring) (doc : gmap nat modalElement) :
  (forall id m', keydownHandler (lit "Escape") doc !! id = Some m' ->
                 open_modal m' = false)
  /\ (forall id m, doc !! id = Some m -> open_modal m = false ->
                   keydownHandler (lit "Escape") doc !! id = Some m)
  /\ (forall id, doc !! id = None -> keydownHandler (lit "Escape") doc !! id = None)
  /\ (k <> lit "Escape" -> keydownHandler k doc = doc).
Proof.
  assert (Hesc : forall j,
    keydownHandler (lit "Escape") doc !! j
    = (fun m => if open_modal m then add_hidden m else m) <$> doc !! j).
  { intros j. unfold keydownHandler. rewrite str_eqb_refl. apply lookup_fmap. }
  split; [|split; [|split]].
  - intros id m'. rewrite Hesc. destruct (doc !! id) as [m|]; [|done].
    simpl. intros [= <-]. destruct (open_modal m) eqn:Ho; [|done].
    apply open_modal_add_hidden.
  - intros id m Hm Ho. by rewrite Hesc, Hm; simpl; rewrite Ho.
  - intros id Hnone. by rewrite Hesc, Hnone.
  - intros Hk. unfold keydownHandler.
    replace (str_eqb k (lit "Escape")) with false; [done|].
    symmetry. apply not_true_is_false. by intros ?%str_eqb_eq.
Qed.

(** X13: the close button undoes the opening and the opening undoes the
    close button: after open then close the modal is hidden with
    [aria-hidden] 'true', after close then open it is shown with
    [aria-hidden] 'false'; its other classes and the other elements are
    untouched, and a click whose modal is not found changes nothing. *)
Theorem open_and_close_undo (doc : gmap nat modalElement) (id : nat)
  (m : modalElement) :
  doc !! id = Some m ->
  (exists m',
     modalCloseClick (Some id) (modalOpenClick (Some id) doc) !! id = Some m'
     /\ contains (classList m') (lit "hidden") = true
     /\ aria_hidden m' = Some (lit "true")
     /\ forall t, t <> lit "hidden" ->
          contains (classList m') t = contains (classList m) t)
  /\ (exists m',
        modalOpenClick (Some id) (modalCloseClick (Some id) doc) !! id = Some m'
        /\ contains (classList m') (lit "hidden") = false
        /\ aria_hidden m' = Some (lit "false")
        /\ forall t, t <> lit "hidden" ->
             contains (classList m') t = contains (classList m) t)
  /\ (forall j, j <> id ->
        modalOpenClick (Some id) doc !! j = doc !! j
        /\ modalCloseClick (Some id) doc !! j = doc !! j)
  /\ modalOpenClick None doc = doc
  /\ modalCloseClick None doc = doc.
Proof.
  intros Hm. split; [|split; [|split]].
  - unfold modalCloseClick, modalOpenClick. rewrite !lookup_alter_eq, Hm.
    eexists. split; [done|]. cbn [classList aria_hidden].
    split; [apply contains_add|]. split; [done|].
    intros t Ht. by rewrite contains_add_other, contains_remove_other.
  - unfold modalCloseClick, modalOpenClick. rewrite !lookup_alter_eq, Hm.
    eexists. split; [done|]. cbn [classList aria_hidden].
    split; [apply contains_remove|]. split; [done|].
    intros t Ht. by rewrite contains_remove_other, contains_add_other.
  - intros j Hj. unfold modalCloseClick, modalOpenClick.
    by rewrite !lookup_alter_ne.
  - done.
Qed.

Lemma open_and_close_undo_witness :
  demo_doc !! 7%nat = Some (ModalElement [lit "modal"; lit "hidden"] (Some (lit "true")))
  /\ exists m',
       modalOpenClick (Some 7%nat) (modalCloseClick (Some 7%nat) demo_doc) !! 7%nat
       = Some m'
       /\ contains (classList m') (lit "hidden") = false
       /\ aria_hidden m' = Some (lit "false")
       /\ forall t, t <> lit "hidden" ->
            contains (classList m') t = contains [lit "modal"; lit "hidden"] t.
Proof.
  assert (Hm : demo_doc !! 7%nat
               = Some (ModalElement [lit "modal"; lit "hidden"] (Some (lit "true"))))
    by reflexivity.
  split; [exact Hm|].
  exact (proj1 (proj2 (open_and_close_undo demo_doc 7%nat _ Hm))).
Defined.

(** ** The theme *)

Lemma applyTheme_dark theme html :
  contains (applyTheme theme html) (lit "dark") = str_eqb theme (lit "dark").
Proof.
  unfold applyTheme. destruct (str_eqb theme (lit "dark")).
  - apply contains_add.
  - apply contains_remove.
Qed.

Lemma applyTheme_other theme html t :
  t <> lit "dark" -> contains (applyTheme theme html) t = contains html t.
Proof.
  intros Ht. unfold applyTheme. destruct (str_eqb theme (lit "dark")).
  - by apply contains_add_other.
  - by apply contains_remove_other.
Qed.

Lemma initTheme_stored s matchMedia html theme :
  getStoredTheme s = Some theme -> theme <> [] ->
  initTheme s matchMedia html = applyTheme theme html.
Proof. unfold initTheme. intros ->. by destruct theme. Qed.

(** X14: at load the stored preference decides when there is one: the page
    is dark exactly when the stored string is 'dark', whatever the system
    prefers; when nothing usable is stored (no item, an empty item, or a
    storage that throws) the page is dark exactly when the system prefers
    dark, and light when [matchMedia] does not exist.  The other classes of
    the root element are kept. *)
Theorem initTheme_choice (s : storage) (matchMedia : option bool)
  (html : list jsstring) :
  contains (initTheme s matchMedia html) (lit "dark")
  = match (if read_throws s then None else theme_item s) with
    | Some (c :: t) => str_eqb (c :: t) (lit "dark")
    | _ => match matchMedia with Some prefers => prefers | None => false end
    end
  /\ forall t, t <> lit "dark" ->
       contains (initTheme s matchMedia html) t = contains html t.
Proof.
  unfold initTheme, getStoredTheme, systemPrefersDark. split.
  - destruct (if read_throws s then None else theme_item s) as [[|c t]|];
      rewrite applyTheme_dark; try done;
      by destruct matchMedia as [[]|].
  - intros t Ht.
    destruct (if read_throws s then None else theme_item s) as [[|c t']|];
      by apply applyTheme_other.
Qed.

(** X15: a click on the toggle flips the dark class and nothing else on the
    root element, and dispatches one event with the new theme; when the
    storage can be written the new theme is what it holds afterwards, and
    when it throws the click still works and the storage is unchanged.  Two
    clicks bring every class back. *)
Theorem theme_toggle_flips (p : themePage) :
  let p' := themeToggleClick p in
  let theme := if contains (html_classList p') (lit "dark")
               then lit "dark" else lit "light" in
  contains (html_classList p') (lit "dark")
  = negb (contains (html_classList p) (lit "dark"))
  /\ (forall t, t <> lit "dark" ->
        contains (html_classList p') t = contains (html_classList p) t)
  /\ dispatched p' = dispatched p ++ [theme]
  /\ (write_throws (localStorage p) = false ->
      theme_item (localStorage p') = Some theme)
  /\ (write_throws (localStorage p) = true -> localStorage p' = localStorage p)
  /\ forall t, contains (html_classList (themeToggleClick p')) t
               = contains (html_classList p) t.
Proof.
  cbv zeta.
  assert (Hcl : forall q, html_classList (themeToggleClick q)
                          = fst (classList_toggle (lit "dark") (html_classList q))).
  { intros q. unfold themeToggleClick. by destruct (classList_toggle _ _). }
  assert (Hdark : forall q, contains (html_classList (themeToggleClick q)) (lit "dark")
                            = negb (contains (html_classList q) (lit "dark"))).
  { intros q. rewrite Hcl. apply contains_toggle. }
  assert (Hother : forall q t, t <> lit "dark" ->
            contains (html_classList (themeToggleClick q)) t
            = contains (html_classList q) t).
  { intros q t Ht. rewrite Hcl. by apply contains_toggle_other. }
  split; [apply Hdark|]. split; [apply Hother|].
  rewrite Hdark.
  assert (Hrun : themeToggleClick p
    = {| html_classList := fst (classList_toggle (lit "dark") (html_classList p));
         localStorage :=
           storeTheme (if negb (contains (html_classList p) (lit "dark"))
                       then lit "dark" else lit "light") (localStorage p);
         dispatched :=
           dispatched p ++ [if negb (contains (html_classList p) (lit "dark"))
                            then lit "dark" else lit "light"] |}).
  { unfold themeToggleClick. rewrite <- snd_toggle.
    by destruct (classList_toggle _ _). }
  split; [by rewrite Hrun|]. split; [|split].
  - intros Hw. rewrite Hrun. cbn [localStorage]. unfold storeTheme. by rewrite Hw.
  - intros Hw. rewrite Hrun. cbn [localStorage]. unfold storeTheme. by rewrite Hw.
  - intros t. destruct (decide (t = lit "dark")) as [-> | Ht].
    + rewrite !Hdark. apply negb_involutive.
    + by rewrite !Hother.
Qed.

(** X16: with a storage that works, the theme chosen by a click is the
    theme of the next load: whatever the system prefers and whatever
    classes the root element starts with, the page is then dark exactly
    when it was dark after the click. *)
Theorem theme_choice_persists (p : themePage) (matchMedia : option bool)
  (html : list jsstring) :
  read_throws (localStorage p) = false ->
  write_throws (localStorage p) = false ->
  contains (initTheme (localStorage (themeToggleClick p)) matchMedia html) (lit "dark")
  = contains (html_classList (themeToggleClick p)) (lit "dark").
Proof.
  intros Hr Hw.
  assert (Hstore : localStorage (themeToggleClick p)
    = storeTheme (if contains (html_classList (themeToggleClick p)) (lit "dark")
                  then lit "dark" else lit "light") (localStorage p)).
  { unfold themeToggleClick.
    pose proof (contains_toggle (lit "dark") (html_classList p)) as Hc.
    pose proof (snd_toggle (lit "dark") (html_classList p)) as Hs.
    destruct (classList_toggle _ _) as [cl b]. cbn [fst snd] in *.
    cbn [html_classList localStorage]. by rewrite Hc, <- Hs. }
  rewrite Hstore.
  rewrite (initTheme_stored _ matchMedia html
             (if contains (html_classList (themeToggleClick p)) (lit "dark")
              then lit "dark" else lit "light")).
  - rewrite applyTheme_dark.
    by destruct (contains (html_classList (themeToggleClick p)) (lit "dark")).
  - unfold getStoredTheme, storeTheme. rewrite Hw. cbn [read_throws theme_item].
    by rewrite Hr.
  - by destruct (contains (html_classList (themeToggleClick p)) (lit "dark")).
Qed.

Lemma theme_choice_persists_witness :
  read_throws (localStorage demo_theme) = false
  /\ write_throws (localStorage demo_theme) = false
  /\ contains (initTheme (localStorage (themeToggleClick demo_theme)) (Some false) [])
       (lit "dark")
     = contains (html_classList (themeToggleClick demo_theme)) (lit "dark").
Proof.
  split; [reflexivity|]. split; [reflexivity|].
  exact (theme_choice_persists demo_theme (Some false) [] eq_refl eq_refl).
Defined.

(** With a storage that throws, the choice is lost at the next load: the
    page follows the system again. *)
Example theme_not_persisted :
  contains (html_classList (themeToggleClick (ThemePage [] disabled_storage [])))
    (lit "dark") = true
  /\ contains (initTheme (localStorage (themeToggleClick (ThemePage [] disabled_storage [])))
                 (Some false) []) (lit "dark") = false.
Proof. split; vm_compute; reflexivity. Qed.

(** ** The mobile menu *)

Lemma attr_is_bool (b : bool) :
  attr_is (Some (if b then lit "true" else lit "false")) (lit "true") = b.
Proof. by destruct b. Qed.

(** X17: a click on the menu button whose menu is not found changes
    nothing, not even [aria-expanded], and an invalid selector makes the
    listener throw before any change.  Otherwise [aria-expanded] becomes
    'true' or 'false', the opposite of what it stood for (anything but
    'true' counts as collapsed), the class 'hidden' of the menu is flipped
    and nothing else is touched; so a button and a menu that agree
    (expanded exactly when the menu is not hidden) still agree afterwards. *)
Theorem menu_click_effect (data_target : option jsstring)
  (querySelector : jsstring -> found) (nextElementSibling : option nat)
  (p : menuPage) :
  match menuTarget data_target querySelector nextElementSibling with
  | Throw msg =>
      menuButtonClick data_target querySelector nextElementSibling p = Throw msg
  | Normal None =>
      menuButtonClick data_target querySelector nextElementSibling p = Normal p
  | Normal (Some id) =>
      exists p',
        menuButtonClick data_target querySelector nextElementSibling p = Normal p'
        /\ (aria_expanded p' = Some (lit "true") \/ aria_expanded p' = Some (lit "false"))
        /\ attr_is (aria_expanded p') (lit "true")
           = negb (attr_is (aria_expanded p) (lit "true"))
        /\ (forall j, j <> id -> classes p' !! j = classes p !! j)
        /\ (classes p !! id = None -> classes p' !! id = None)
        /\ forall cl, classes p !! id = Some cl ->
             exists cl',
               classes p' !! id = Some cl'
               /\ contains cl' (lit "hidden") = negb (contains cl (lit "hidden"))
               /\ (forall t, t <> lit "hidden" -> contains cl' t = contains cl t)
               /\ (attr_is (aria_expanded p) (lit "true")
                   = negb (contains cl (lit "hidden")) ->
                   attr_is (aria_expanded p') (lit "true")
                   = negb (contains cl' (lit "hidden")))
  end.
Proof.
  unfold menuButtonClick.
  destruct (menuTarget data_target querySelector nextElementSibling)
    as [[id|]|msg]; cbn [cbind]; [|done|done].
  eexists. split; [done|]. cbn [aria_expanded classes].
  split; [destruct (attr_is (aria_expanded p) (lit "true")); auto|].
  split; [apply attr_is_bool|].
  split; [intros j Hj; by rewrite lookup_alter_ne|].
  split; [intros Hnone; by rewrite lookup_alter_eq, Hnone|].
  intros cl Hcl. rewrite lookup_alter_eq, Hcl. eexists. split; [done|].
  split; [apply contains_toggle|].
  split; [intros t Ht; by apply contains_toggle_other|].
  intros Hagree. rewrite attr_is_bool, contains_toggle, Hagree. done.
Qed.

(** X18: two clicks on the menu button bring the menu back: the class
    'hidden' and every other class of the menu are as before, and
    [aria-expanded] stands for the same state as before. *)
Theorem menu_two_clicks (data_target : option jsstring)
  (querySelector : jsstring -> found) (nextElementSibling : option nat)
  (p : menuPage) (id : nat) (cl : list jsstring) :
  menuTarget data_target querySelector nextElementSibling = Normal (Some id) ->
  classes p !! id = Some cl ->
  exists p1 p2 cl2,
    menuButtonClick data_target querySelector nextElementSibling p = Normal p1
    /\ menuButtonClick data_target querySelector nextElementSibling p1 = Normal p2
    /\ attr_is (aria_expanded p2) (lit "true") = attr_is (aria_expanded p) (lit "true")
    /\ classes p2 !! id = Some cl2
    /\ (forall t, contains cl2 t = contains cl t)
    /\ forall j, j <> id -> classes p2 !! j = classes p !! j.
Proof.
  intros Hmenu Hcl. unfold menuButtonClick. rewrite Hmenu. cbn [cbind].
  eexists _, _, _. split; [done|]. split; [done|].
  cbn [aria_expanded classes].
  split; [by rewrite !attr_is_bool, negb_involutive|].
  split; [by rewrite !lookup_alter_eq, Hcl|].
  split.
  - intros t. destruct (decide (t = lit "hidden")) as [-> | Ht].
    + rewrite !contains_toggle. apply negb_involutive.
    + by rewrite !contains_toggle_other.
  - intros j Hj. by rewrite !lookup_alter_ne.
Qed.

Lemma menu_two_clicks_witness :
  menuTarget None (fun _ => FoundNull) (Some 9%nat) = Normal (Some 9%nat)
  /\ classes demo_menu !! 9%nat = Some [lit "nav"; lit "hidden"]
  /\ exists p1 p2 cl2,
       menuButtonClick None (fun _ => FoundNull) (Some 9%nat) demo_menu = Normal p1
       /\ menuButtonClick None (fun _ => FoundNull) (Some 9%nat) p1 = Normal p2
       /\ attr_is (aria_expanded p2) (lit "true")
          = attr_is (aria_expanded demo_menu) (lit "true")
       /\ classes p2 !! 9%nat = Some cl2
       /\ (forall t, contains cl2 t = contains [lit "nav"; lit "hidden"] t)
       /\ forall j, j <> 9%nat -> classes p2 !! j = classes demo_menu !! j.
Proof.
  assert (Hm : menuTarget None (fun _ => FoundNull) (Some 9%nat) = Normal (Some 9%nat))
    by reflexivity.
  assert (Hc : classes demo_menu !! 9%nat = Some [lit "nav"; lit "hidden"])
    by reflexivity.
  split; [exact Hm|]. split; [exact Hc|].
  exact (menu_two_clicks None (fun _ => FoundNull) (Some 9%nat) demo_menu 9%nat _ Hm Hc).
Defined.

(** ** The copy button *)

(** X19: the listener of the copy button fails only when the selector of
    [data-copy-target] is invalid.  When it returns, one of three things has
    happened: the write was fulfilled, and the button got the class 'copied'
    and a timer of 1500 ms; or the write was rejected or could not start, and
    a warning was logged, the button being unchanged; or there was no text to
    copy, and nothing was written or changed.  It stays pending only while
    the write does. *)
Theorem copy_button_outcome (btn : copyButton) (querySelector : jsstring -> queryResult)
  (writeText : jsstring -> completion (promise unit)) :
  (forall e, copyButtonClick btn querySelector writeText = Rejected e ->
             copyButtonText btn querySelector = Throw e)
  /\ (forall r, copyButtonClick btn querySelector writeText = Fulfilled r ->
        (exists text u,
            copyButtonText btn querySelector = Normal (Some text)
            /\ text <> []
            /\ writeText text = Normal (Fulfilled u)
            /\ r = {| button_after := classList_add (lit "copied") (button_classList btn);
                      written := Some text; timer := Some 1500; copy_warned := false |})
        \/ (exists text,
              copyButtonText btn querySelector = Normal (Some text)
              /\ text <> []
              /\ (exists e, writeText text = Normal (Rejected e) \/ writeText text = Throw e)
              /\ r = {| button_after := button_classList btn;
                        written := Some text; timer := None; copy_warned := true |})
        \/ ((copyButtonText btn querySelector = Normal None
             \/ copyButtonText btn querySelector = Normal (Some []))
            /\ r = {| button_after := button_classList btn;
                      written := None; timer := None; copy_warned := false |}))
  /\ (copyButtonClick btn querySelector writeText = Pending ->
      exists text, copyButtonText btn querySelector = Normal (Some text)
                   /\ writeText text = Normal Pending).
Proof.
  unfold copyButtonClick.
  destruct (copyButtonText btn querySelector) as [[[|c s]|]|msg] eqn:Ht; cbn [eval rbind].
  - split; [done|]. split; [|done]. intros r [= <-]. right. right. auto.
  - destruct (writeText (c :: s)) as [[u|e|]|e] eqn:Hw;
      cbn [eval rbind await try_catch async];
      (split; [done|]); (split; [|try done]).
    + intros r [= <-]. left. by exists (c :: s), u.
    + intros r [= <-]. right. left. exists (c :: s). repeat split; eauto.
    + done.
    + intros _. by exists (c :: s).
    + intros r [= <-]. right. left. exists (c :: s). repeat split; eauto.
  - split; [done|]. split; [|done]. intros r [= <-]. right. right. auto.
  - cbn [async]. split; [by intros e [= ->]|]. split; done.
Qed.

(** X20: a non-empty [data-copy] wins over [data-copy-target]: the selector
    is not queried, so the click does the same whatever the selector finds,
    even when it is invalid, and the text written is the attribute. *)
Theorem data_copy_wins (btn : copyButton) (qs qs' : jsstring -> queryResult)
  (writeText : jsstring -> completion (promise unit)) (c : N) (s : jsstring) :
  data_copy btn = Some (c :: s) ->
  copyButtonClick btn qs writeText = copyButtonClick btn qs' writeText
  /\ forall r, copyButtonClick btn qs writeText = Fulfilled r ->
               written r = Some (c :: s).
Proof.
  intros Hd. unfold copyButtonClick, copyButtonText. rewrite Hd. cbn [eval rbind].
  split; [done|].
  destruct (writeText (c :: s)) as [[u|e|]|e];
    cbn [eval rbind await try_catch async]; try done; by intros r [= <-].
Qed.

Lemma data_copy_wins_witness :
  data_copy phone_button = Some (lit "+970 59 000")
  /\ copyButtonClick phone_button (fun _ => QueryThrows) granted_clipboard
     = copyButtonClick phone_button (fun _ => QueryNull) granted_clipboard.
Proof.
  split; [reflexivity|].
  exact (proj1 (data_copy_wins phone_button (fun _ => QueryThrows) (fun _ => QueryNull)
                  granted_clipboard _ _ eq_refl)).
Defined.

Lemma copyButtonClick_fulfilled btn querySelector writeText r :
  copyButtonClick btn querySelector writeText = Fulfilled r ->
  button_after r = button_classList btn
  \/ button_after r = classList_add (lit "copied") (button_classList btn).
Proof.
  unfold copyButtonClick.
  destruct (copyButtonText btn querySelector) as [[[|c s]|]|msg]; cbn [eval rbind];
    [ | destruct (writeText (c :: s)) as [[u|e|]|e] | | ];
    cbn [eval rbind await try_catch async];
    intros Hr; try discriminate Hr; injection Hr as <-; auto.
Qed.

(** X21: when the timer set by a successful copy fires, the button has the
    class 'copied' no more; a button that did not have it before the click
    then has exactly its former class list. *)
Theorem copied_mark_expires (btn : copyButton) (querySelector : jsstring -> queryResult)
  (writeText : jsstring -> completion (promise unit)) (r : copyEffects) :
  copyButtonClick btn querySelector writeText = Fulfilled r ->
  contains (copiedExpired (button_after r)) (lit "copied") = false
  /\ (contains (button_classList btn) (lit "copied") = false ->
      copiedExpired (button_after r) = button_classList btn).
Proof.
  intros Hr. split; [apply contains_remove|]. intros Hc. unfold copiedExpired.
  destruct (copyButtonClick_fulfilled _ _ _ _ Hr) as [-> | ->].
  - by apply classList_remove_absent.
  - by apply classList_remove_add.
Qed.

Lemma copied_mark_expires_witness :
  copyButtonClick phone_button (fun _ => QueryNull) granted_clipboard
  = Fulfilled {| button_after := [lit "copy-btn"; lit "copied"];
                 written := Some (lit "+970 59 000");
                 timer := Some 1500; copy_warned := false |}
  /\ copiedExpired [lit "copy-btn"; lit "copied"] = button_classList phone_button.
Proof.
  assert (Hr : copyButtonClick phone_button (fun _ => QueryNull) granted_clipboard
               = Fulfilled {| button_after := [lit "copy-btn"; lit "copied"];
                              written := Some (lit "+970 59 000");
                              timer := Some 1500; copy_warned := false |})
    by reflexivity.
  split; [exact Hr|].
  exact (proj2 (copied_mark_expires phone_button (fun _ => QueryNull) granted_clipboard
                  _ Hr) eq_refl).
Defined.

(** ** The sticky header *)

(** X22: after any run of scroll events the header has the class 'scrolled'
    exactly when the last position is greater than 24, whatever the former
    positions and the former classes were, and its other classes are kept. *)
Theorem header_follows_last_scroll (positions : list number) (last : number)
  (header : list jsstring) :
  let header' := fold_left (fun h y => scrollHandler y h) (positions ++ [last]) header in
  contains header' (lit "scrolled") = SFltb threshold last
  /\ forall t, t <> lit "scrolled" -> contains header' t = contains header t.
Proof.
  cbv zeta. rewrite fold_left_app. cbn [fold_left]. split.
  - unfold scrollHandler. destruct (SFltb threshold last).
    + apply contains_add.
    + apply contains_remove.
  - intros t Ht.
    assert (Hone : forall y h, contains (scrollHandler y h) t = contains h t).
    { intros y h. unfold scrollHandler. destruct (SFltb threshold y).
      - by apply contains_add_other.
      - by apply contains_remove_other. }
    rewrite Hone. revert header.
    induction positions as [|y ys IH]; intros header; [done|].
    cbn [fold_left]. by rewrite IH, Hone.
Qed.
